(** * nudgeme-ai: the reminder state store and the reminder engine tick

    A shallow embedding of [app/reminder_state.py] (class
    [ReminderStateStore]) and of [ReminderEngine._tick] from
    [app/reminder_engine.py], with the properties of the dispatch core
    stated and proved over it.

    Python code that mutates [self._state], writes the state file, calls
    the SMS service and may raise is modelled in a state-and-exception
    monad over an explicit [World].  The behaviour of the collaborators
    (does this SMS call fail, does this write fail, which zones does the
    zone database hold) is an [Env] of oracles, so every definition
    stays executable.

    Times are modelled as Python has them: a [datetime] is a wall clock
    reading with a [tzinfo] object, a [ZoneInfo] zone is a table of
    transitions between UTC offsets, [datetime - timedelta] works on the
    wall clock, and a comparison looks at UTC offsets only when the two
    operands do not share their [tzinfo] object.  The range check of
    [datetime] (years 1 to 9999) is left out: the wall clock is an
    unbounded integer here. *)

From stdpp Require Import gmap strings list sorting.
From Stdlib Require Import ZArith Lia.

Local Open Scope Z_scope.

(** ** Data model *)

(** One value of the [_state] dictionary, as [mark_sent] creates it:
    [{"sent": [...], "last_updated": ...}].  [mark_sent] is the only
    place records are created and it always writes both keys, so the
    defaults of the [.get] calls in the source are never taken on a
    record the store wrote itself. *)
Record ReminderRecord := {
  sent : list string;
  last_updated : string
}.

#[global] Instance ReminderRecord_eq_dec : EqDecision ReminderRecord.
Proof. solve_decision. Defined.

(** [list.sort()] on a list of [str]: ascending by code point, which on
    UTF-8 byte strings is the bytewise order [String.leb]. *)
Definition str_le (a b : string) : Prop := String.leb a b = true.

#[global] Instance str_le_dec : RelDecision str_le.
Proof. intros a b. unfold str_le. apply _. Defined.

Definition sort (l : list string) : list string := merge_sort str_le l.

(** The file at [self.path].  [Partial] is a file that was opened for
    writing (hence truncated) and whose dump did not complete. *)
Inductive file_state :=
| Missing
| Snapshot (m : gmap string ReminderRecord)
| Partial.

(** What a call of [_persist] meets: the open may fail (the file is left
    as it was), or the dump may fail after the open truncated the file. *)
Inductive io_outcome := IoOk | IoOpenFails | IoWriteFails.

(** The table of a zone of the IANA database, as a [ZoneInfo] object
    holds it: the UTC offset in force before the first transition, then
    the transitions in ascending order, each with the UTC instant at
    which it happens and the UTC offset in force from then on.  Instants
    and offsets are whole seconds, written in microseconds like every
    other time here. *)
Record zone_table := {
  initial_offset : Z;
  transitions : list (Z * Z)
}.

(** A [tzinfo] object: a [datetime.timezone], which is one fixed UTC
    offset, or the [ZoneInfo] object of a key.  [ZoneInfo] caches the
    objects it builds, so the object of a key is one and the same
    wherever the program asks for it. *)
Inductive tz :=
| tz_fixed (offset : Z)
| tz_zone (key : string) (table : zone_table).

(** A [datetime]: the wall-clock reading (the fields year to
    microsecond, in microseconds), the [tzinfo] of a timezone-aware
    value, and [fold], which tells the two passes of a repeated wall
    clock hour apart. *)
Record datetime := {
  wall : Z;
  tzinfo : option tz;
  fold : bool
}.

(** [EventResponse] of [app/models.py], the fields the engine reads. *)
Module EventResponse.
Record t := {
  id : string;
  summary : string;
  start_time : datetime;
  end_time : datetime;
  timezone : string;
  updated_at : option datetime
}.
End EventResponse.

(** What [ZoneInfo(key)] finds: the table of the zone, no zone of that
    name, or a key that is no well-formed zone name (an absolute path,
    a path with [..]). *)
Inductive zone_lookup :=
| ZoneData (table : zone_table)
| NoSuchZone
| BadKey.

Inductive exn :=
| OSError
| JSONDecodeError
| SmsError
| CalendarError
| ZoneInfoNotFoundError
| ValueError
| TypeError.

(** The calls the engine makes on its collaborators, in program order. *)
Inductive action :=
| LogException (msg : string) (exc : exn)
| SmsSend (body : string) (ok : bool)
| MarkSent (event_id reminder_type version : string)
| ClearEvent (event_id : string).


#[global] Instance exn_eq_dec : EqDecision exn.
Proof. solve_decision. Defined.
#[global] Instance action_eq_dec : EqDecision action.
Proof. solve_decision. Defined.

Record World := {
  st_state : gmap string ReminderRecord;   (* ReminderStateStore._state *)
  st_file : file_state;                    (* the file at ReminderStateStore.path *)
  persist_calls : nat;                     (* calls of _persist so far *)
  sms_calls : nat;                         (* calls of SmsService.send_message so far *)
  trace : list action
}.

Record Env := {
  io_at : nat -> io_outcome;               (* outcome of the n-th _persist *)
  sms_ok : nat -> string -> bool;          (* does the n-th send_message, with this body, succeed *)
  zoneinfo : string -> zone_lookup;        (* what the zone database holds under a key *)
  isoformat : datetime -> string;          (* datetime.isoformat() *)
  settings_timezone : string               (* Settings.timezone *)
}.

(** ** The state-and-exception monad

    A raised exception keeps the mutations made before it, as in Python. *)
Inductive result (A : Type) :=
| Ok (a : A)
| Raise (e : exn).
Arguments Ok {A} a.
Arguments Raise {A} e.

Definition M (A : Type) : Type := World -> World * result A.

Definition ret {A} (a : A) : M A := fun w => (w, Ok a).

Definition bind {A B} (c : M A) (k : A -> M B) : M B :=
  fun w => match c w with
           | (w', Ok a) => k a w'
           | (w', Raise e) => (w', Raise e)
           end.

(** [try: c  except Exception as exc: h exc] *)
Definition try_except {A} (c : M A) (h : exn -> M A) : M A :=
  fun w => match c w with
           | (w', Ok a) => (w', Ok a)
           | (w', Raise e) => h e w'
           end.

Declare Scope py_scope.
Delimit Scope py_scope with py.
Notation "x <- c ;; k" := (bind c (fun x => k))
  (at level 100, c at next level, right associativity) : py_scope.
Notation "c ;; k" := (bind c (fun _ => k))
  (at level 100, right associativity) : py_scope.
Local Open Scope py_scope.

(** [for x in l: f x] *)
Fixpoint for_each {A} (l : list A) (f : A -> M unit) : M unit :=
  match l with
  | [] => ret tt
  | x :: l' => f x ;; for_each l' f
  end.

Definition lift {A} (r : result A) : M A := fun w => (w, r).

Definition emit (a : action) : M unit :=
  fun w => ({| st_state := st_state w; st_file := st_file w;
               persist_calls := persist_calls w; sms_calls := sms_calls w;
               trace := trace w ++ [a] |}, Ok tt).

Definition set_state (m : gmap string ReminderRecord) : M unit :=
  fun w => ({| st_state := m; st_file := st_file w;
               persist_calls := persist_calls w; sms_calls := sms_calls w;
               trace := trace w |}, Ok tt).

(** ** ReminderStateStore *)

Section Store.
Variable env : Env.

(** [_load]: no file gives the empty mapping; a file that is not a
    complete JSON document makes [json.load] raise. *)
Definition _load : M unit :=
  fun w => match st_file w with
           | Missing => set_state ∅ w
           | Snapshot m => set_state m w
           | Partial => (w, Raise JSONDecodeError)
           end.

(** [_persist]: [open(path, "w")] truncates the file, then [json.dump]
    writes the whole mapping into it. *)
Definition _persist : M unit :=
  fun w =>
    let w1 f := {| st_state := st_state w; st_file := f;
                   persist_calls := S (persist_calls w); sms_calls := sms_calls w;
                   trace := trace w |} in
    match io_at env (persist_calls w) with
    | IoOk => (w1 (Snapshot (st_state w)), Ok tt)
    | IoOpenFails => (w1 (st_file w), Raise OSError)
    | IoWriteFails => (w1 Partial, Raise OSError)
    end.

Definition has_sent (st : gmap string ReminderRecord)
    (event_id reminder_type version : string) : bool :=
  match st !! event_id with
  | None => false
  | Some event_state =>
      if bool_decide (last_updated event_state ≠ version) then false
      else bool_decide (reminder_type ∈ sent event_state)
  end.

(** The record [mark_sent] leaves under [event_id]: [setdefault], the
    reset on a version change, then the append-and-sort of a new kind. *)
Definition marked (st : gmap string ReminderRecord)
    (event_id reminder_type version : string) : ReminderRecord :=
  let event_state :=
    match st !! event_id with
    | Some r => r
    | None => {| sent := []; last_updated := version |}
    end in
  let event_state :=
    if bool_decide (last_updated event_state ≠ version)
    then {| sent := []; last_updated := version |}
    else event_state in
  if bool_decide (reminder_type ∈ sent event_state)
  then event_state
  else {| sent := sort (sent event_state ++ [reminder_type]);
          last_updated := last_updated event_state |}.

Definition mark_sent (event_id reminder_type version : string) : M unit :=
  emit (MarkSent event_id reminder_type version) ;;
  (fun w => set_state (<[event_id := marked (st_state w) event_id reminder_type version]>
                         (st_state w)) w) ;;
  _persist.

Definition clear_event (event_id : string) : M unit :=
  emit (ClearEvent event_id) ;;
  (fun w =>
     match st_state w !! event_id with
     | Some _ => (set_state (delete event_id (st_state w)) ;; _persist) w
     | None => (w, Ok tt)
     end).

End Store.

(** ** datetime arithmetic and comparison *)

Definition hours (n : Z) : Z := n * 3600000000.
Definition minutes (n : Z) : Z := n * 60000000.

(** [d - timedelta]: the subtraction is done on the wall clock, no UTC
    offset enters it; the result keeps the [tzinfo] object and has
    [fold = 0]. *)
Definition minus (d : datetime) (delta : Z) : datetime :=
  {| wall := wall d - delta; tzinfo := tzinfo d; fold := false |}.

(** [ZoneInfo.utcoffset]: the offset in force at a wall clock reading.
    A transition from offset [current] to offset [new1] at the instant
    [at1] is met on the wall clock at [at1 + max current new1] by a
    value with [fold = 0] and at [at1 + min current new1] by one with
    [fold = 1].  So a reading inside a gap (clocks were set forward) has
    the offset from before the transition, and a reading inside a
    repeated hour has the earlier offset unless [fold] is set. *)
Fixpoint _find_trans (fold : bool) (current : Z) (trans : list (Z * Z)) (reading : Z) : Z :=
  match trans with
  | [] => current
  | (at1, new1) :: rest =>
      if reading <? at1 + (if fold then Z.min current new1 else Z.max current new1)
      then current
      else _find_trans fold new1 rest reading
  end.

(** [ZoneInfo.fromutc]: the offset in force at the UTC instant [t], and
    whether the wall clock reading at [t] is the second pass of a
    repeated hour: [t] is less than [current - new1] past the last
    transition, which set the clocks back from [current] to [new1]. *)
Fixpoint fromutc (current : Z) (folded : bool) (trans : list (Z * Z)) (t : Z) : Z * bool :=
  match trans with
  | [] => (current, folded)
  | (at1, new1) :: rest =>
      if t <? at1 then (current, folded)
      else fromutc new1 (t - at1 <? current - new1) rest t
  end.

(** The transitions of a table are in ascending order on the wall clock
    as well, whichever way [fold] reads them; the tables of the zone
    database all are. *)
Fixpoint well_ordered (current : Z) (trans : list (Z * Z)) : bool :=
  match trans with
  | [] => true
  | (at1, new1) :: rest =>
      match rest with
      | [] => true
      | (at2, new2) :: _ => at1 + Z.max current new1 <=? at2 + Z.min new1 new2
      end && well_ordered new1 rest
  end.

(** [d.utcoffset()] *)
Definition utcoffset (d : datetime) : option Z :=
  match tzinfo d with
  | None => None
  | Some (tz_fixed offset) => Some offset
  | Some (tz_zone _ table) =>
      Some (_find_trans (fold d) (initial_offset table) (transitions table) (wall d))
  end.

(** The UTC instant of an aware datetime. *)
Definition instant (d : datetime) : option Z :=
  match utcoffset d with
  | Some off => Some (wall d - off)
  | None => None
  end.

(** The UTC instant of a datetime whose [tzinfo] is a [timezone], as
    [datetime.fromisoformat] builds it from a string with a UTC offset. *)
Definition fixed_instant (d : datetime) : option Z :=
  match tzinfo d with
  | Some (tz_fixed offset) => Some (wall d - offset)
  | _ => None
  end.

(** [a.tzinfo is b.tzinfo].  Two naive values both have [None]; two
    [ZoneInfo] objects are the same object when their keys are equal.
    For two [timezone] objects the answer does not matter to a
    comparison: equal offsets compare by wall clock either way. *)
Definition same_tzinfo (a b : datetime) : bool :=
  match tzinfo a, tzinfo b with
  | None, None => true
  | Some (tz_zone ka _), Some (tz_zone kb _) => bool_decide (ka = kb)
  | _, _ => false
  end.

(** [a < b], as [datetime._cmp] decides it: operands with the same
    [tzinfo] object compare by wall clock, [fold] and offsets ignored;
    otherwise two aware operands compare by instant, and a naive against
    an aware one raises [TypeError]. *)
Definition dt_lt (a b : datetime) : result bool :=
  if same_tzinfo a b then Ok (wall a <? wall b)
  else match utcoffset a, utcoffset b with
       | Some oa, Some ob => Ok (wall a - oa <? wall b - ob)
       | None, None => Ok (wall a <? wall b)
       | _, _ => Raise TypeError
       end.

(** [a >= b] *)
Definition dt_ge (a b : datetime) : result bool :=
  if same_tzinfo a b then Ok (wall b <=? wall a)
  else match utcoffset a, utcoffset b with
       | Some oa, Some ob => Ok (wall b - ob <=? wall a - oa)
       | None, None => Ok (wall b <=? wall a)
       | _, _ => Raise TypeError
       end.

(** ** ReminderEngine._tick *)

Section Engine.
Variable env : Env.

Import EventResponse.

(** [ZoneInfo(key)]: the object of the zone, [ZoneInfoNotFoundError]
    when the database has no such zone, [ValueError] for a key that is
    no zone name or for data that is no valid table. *)
Definition ZoneInfo (key : string) : result tz :=
  match zoneinfo env key with
  | ZoneData table =>
      if well_ordered (initial_offset table) (transitions table)
      then Ok (tz_zone key table)
      else Raise ValueError
  | NoSuchZone => Raise ZoneInfoNotFoundError
  | BadKey => Raise ValueError
  end.

(** [datetime.now(tz)], [clock] being the UTC instant the system clock
    shows: [tz.fromutc] of that instant. *)
Definition now_in (zone : tz) (clock : Z) : datetime :=
  match zone with
  | tz_fixed offset => {| wall := clock + offset; tzinfo := Some zone; fold := false |}
  | tz_zone _ table =>
      let '(offset, folded) :=
        fromutc (initial_offset table) false (transitions table) clock in
      {| wall := clock + offset; tzinfo := Some zone; fold := folded |}
  end.

(** [datetime.now(ZoneInfo(self.settings.timezone))] *)
Definition datetime_now (clock : Z) : result datetime :=
  match ZoneInfo (settings_timezone env) with
  | Ok zone => Ok (now_in zone clock)
  | Raise exc => Raise exc
  end.

(** [SmsService.send_message]: re-raises what the Twilio client raised. *)
Definition send_message (body : string) : M unit :=
  fun w =>
    let ok := sms_ok env (sms_calls w) body in
    ({| st_state := st_state w; st_file := st_file w;
        persist_calls := persist_calls w; sms_calls := S (sms_calls w);
        trace := trace w ++ [SmsSend body ok] |},
     if ok then Ok tt else Raise SmsError).

(** [template.format(title=...)] for the two templates of the source. *)
Definition template_2h (title : string) : string :=
  "⏰ Heads up! '" +:+ title +:+ "' starts in ~2 hours.".
Definition template_10m (title : string) : string :=
  "🚀 Almost go time! '" +:+ title +:+ "' kicks off in 10 minutes.".

(** The [reminders] list built for each event. *)
Definition reminders (start : datetime) : list (string * datetime * (string -> string)) :=
  [ ("2h", minus start (hours 2), template_2h);
    ("10m", minus start (minutes 10), template_10m) ].

(** Lines 58-60: a start without [tzinfo] gets the event's zone, or the
    configured one when the event's zone string is empty. *)
Definition aware_start (event : EventResponse.t) : result datetime :=
  let start := start_time event in
  match tzinfo start with
  | None =>
      match ZoneInfo (if bool_decide (timezone event = "")
                      then settings_timezone env else timezone event) with
      | Ok zone => Ok {| wall := wall start; tzinfo := Some zone; fold := fold start |}
      | Raise exc => Raise exc
      end
  | Some _ => Ok start
  end.

(** [(event.updated_at or event.start_time).isoformat()] *)
Definition updated_key (event : EventResponse.t) : string :=
  isoformat env (match updated_at event with
                 | Some d => d
                 | None => start_time event
                 end).

Definition failed_to_send (event : EventResponse.t) : string :=
  "Failed to send reminder for " +:+ id event.

(** Lines 67-73: the body of the loop over [reminders]. *)
Definition _tick_reminder (now : datetime) (event : EventResponse.t)
    (r : string * datetime * (string -> string)) : M unit :=
  let '(reminder_type, trigger_at, template) := r in
  due <- lift (dt_ge now trigger_at) ;;
  fun w =>
    if due && negb (has_sent (st_state w) (id event) reminder_type (updated_key event))
    then
      let body := template (summary event) in
      try_except
        (send_message body ;;
         mark_sent env (id event) reminder_type (updated_key event))
        (fun exc => emit (LogException (failed_to_send event) exc)) w
    else (w, Ok tt).

(** Lines 58-73: the body of the first loop over [events]. *)
Definition _tick_event (now : datetime) (event : EventResponse.t) : M unit :=
  start <- lift (aware_start event) ;;
  for_each (reminders start) (_tick_reminder now event).

(** Lines 76-79: the clean-up loop. *)
Definition _tick_cleanup (now : datetime) (events : list EventResponse.t) : M unit :=
  let horizon := minus now (hours 1) in
  for_each events (fun event =>
    ended <- lift (dt_lt (end_time event) horizon) ;;
    if ended then clear_event env (id event) else ret tt).

(** [_tick].  [fetch] is what [self.calendar.list_upcoming(hours=24)]
    gave: the list of events, or the exception it raised. *)
Definition _tick (fetch : result (list EventResponse.t)) (clock : Z) : M unit :=
  match fetch with
  | Raise exc => emit (LogException "Unable to fetch events for reminders" exc)
  | Ok events =>
      now <- lift (datetime_now clock) ;;
      for_each events (_tick_event now) ;;
      _tick_cleanup now events
  end.

End Engine.

(** ** Concrete collaborators and inputs for the examples *)

(** The table of [UTC]: offset 0, no transition. *)
Definition utc_table : zone_table := {| initial_offset := 0; transitions := [] |}.

(** A zone database that knows [UTC] only. *)
Definition utc_only (key : string) : zone_lookup :=
  if bool_decide (key = "UTC") then ZoneData utc_table else NoSuchZone.

Definition env_of (io : nat -> io_outcome) (sms : nat -> string -> bool) : Env :=
  {| io_at := io; sms_ok := sms; zoneinfo := utc_only;
     isoformat := fun d => "2026-01-05T09:00:00+00:00";
     settings_timezone := "UTC" |}.

(** Every write and every SMS succeeds. *)
Definition env_ok : Env := env_of (fun _ => IoOk) (fun _ _ => true).

(** A store started without a state file. *)
Definition fresh_world : World :=
  {| st_state := ∅; st_file := Missing; persist_calls := 0; sms_calls := 0; trace := [] |}.

(** A store whose file and memory hold the same mapping [m]. *)
Definition world_of (m : gmap string ReminderRecord) : World :=
  {| st_state := m; st_file := Snapshot m; persist_calls := 0; sms_calls := 0; trace := [] |}.

Definition utc (t : Z) : datetime :=
  {| wall := t; tzinfo := Some (tz_fixed 0); fold := false |}.

(** The reading [t] without a [tzinfo]. *)
Definition naive (t : Z) : datetime := {| wall := t; tzinfo := None; fold := false |}.

(** What [datetime.now(ZoneInfo("UTC"))] reads at the instant [t]. *)
Definition at_utc (t : Z) : datetime :=
  {| wall := t; tzinfo := Some (tz_zone "UTC" utc_table); fold := false |}.

(** The table of [America/New_York] for 2026, instants counted from
    1970-01-01 00:00 UTC: five hours behind UTC, four hours behind from
    2026-03-08 07:00 UTC (02:00 on the wall clock becomes 03:00), five
    hours behind again from 2026-11-01 06:00 UTC (02:00 becomes 01:00). *)
Definition new_york : zone_table :=
  {| initial_offset := - hours 5;
     transitions := [(hours 492487, - hours 4); (hours 498198, - hours 5)] |}.

(** A zone database with [UTC] and [America/New_York]; the empty key
    and a key that is an absolute path are no zone names. *)
Definition utc_and_new_york (key : string) : zone_lookup :=
  if bool_decide (key = "UTC") then ZoneData utc_table
  else if bool_decide (key = "America/New_York") then ZoneData new_york
  else if bool_decide (key = "") || String.prefix "/" key then BadKey
  else NoSuchZone.

(** Collaborators that always succeed, with [Settings.timezone] set to
    [zone] and the database above. *)
Definition env_in (zone : string) : Env :=
  {| io_at := fun _ => IoOk; sms_ok := fun _ _ => true; zoneinfo := utc_and_new_york;
     isoformat := fun d => "2026-03-08T03:05:00";
     settings_timezone := zone |}.

Definition event_at (event_id title : string) (start finish : datetime) (zone : string)
  : EventResponse.t :=
  {| EventResponse.id := event_id; EventResponse.summary := title;
     EventResponse.start_time := start; EventResponse.end_time := finish;
     EventResponse.timezone := zone; EventResponse.updated_at := None |}.

(** ** Statements of the specification that the code is compared with *)

(** Is (event id, kind, version) recorded in the file? *)
Definition persisted (f : file_state) (event_id reminder_type version : string) : bool :=
  match f with
  | Snapshot m => has_sent m event_id reminder_type version
  | _ => false
  end.

(** "The send is not recorded until persisted": when the write of a
    [mark_sent] fails the call raises, [has_sent] answers as before the
    call, and nothing counts as sent that the file does not hold. *)
Definition failed_write_leaves_send_unrecorded : Prop :=
  forall env w E K V,
    io_at env (persist_calls w) ≠ IoOk ->
    let w' := (mark_sent env E K V w).1 in
    (mark_sent env E K V w).2 = Raise OSError /\
    has_sent (st_state w') E K V = has_sent (st_state w) E K V /\
    (has_sent (st_state w') E K V = true -> persisted (st_file w') E K V = true).

(** "Overwritten atomically": after a mutation the file holds the prior
    valid snapshot or the complete new one, whatever happened to the write. *)
Definition snapshot_overwritten_atomically : Prop :=
  forall env w m (mutation : M unit),
    (exists E K V, mutation = mark_sent env E K V) \/ (exists E, mutation = clear_event env E) ->
    st_file w = Snapshot m ->
    let w' := (mutation w).1 in
    st_file w' = Snapshot m \/ st_file w' = Snapshot (st_state w').


(** The bodies handed to [send_message], in order. *)
Definition sms_bodies (tr : list action) : list string :=
  omap (fun a => match a with SmsSend body _ => Some body | _ => None end) tr.


(** Did the event end more than one hour before the instant [clock]?
    For an end time with a fixed UTC offset. *)
Definition ended_at (clock : Z) (event : EventResponse.t) : bool :=
  match fixed_instant (EventResponse.end_time event) with
  | Some t => t <? clock - hours 1
  | None => false
  end.

(** "After the reminder pass of every tick, clear_event is invoked for
    exactly those fetched events whose end_time is more than 1 hour
    before now": in a tick whose reminder pass completes, what follows
    the reminder pass in the trace is the [clear_event] calls for the
    fetched events that have ended, in list order. *)
Definition ended_events_all_cleared : Prop :=
  forall env events clock now w,
    datetime_now env clock = Ok now ->
    (for_each events (_tick_event env now) w).2 = Ok tt ->
    Forall (fun e => is_Some (fixed_instant (EventResponse.end_time e))) events ->
    trace (_tick env (Ok events) clock w).1 =
    trace (for_each events (_tick_event env now) w).1
      ++ ((fun e => ClearEvent (EventResponse.id e)) <$>
            filter (fun e => ended_at clock e) events).

(** Has the event ended more than one hour before [now]? (line 78) *)
Definition ended_before (now : datetime) (event : EventResponse.t) : bool :=
  match dt_lt (EventResponse.end_time event) (minus now (hours 1)) with
  | Ok b => b
  | Raise _ => false
  end.


(** ** The rest of the store and of the engine *)

(** [ReminderStateStore.__init__]: a new store object on the file at
    [path] starts from [{}] and loads the file. *)
Definition ReminderStateStore_init : M unit :=
  set_state ∅ ;; _load.

(** The store object a restarted process builds: the file is what the
    old process left, nothing of the old object's memory survives. *)
Definition restarted (w : World) : World * result unit :=
  ReminderStateStore_init w.

(** What the store keeps true of every record it holds: the [sent] list
    is in ascending order, has no duplicate and is not empty. *)
Definition record_ordered (r : ReminderRecord) : Prop :=
  Sorted str_le (sent r) /\ NoDup (sent r) /\ sent r ≠ [].

Definition store_ordered (st : gmap string ReminderRecord) : Prop :=
  forall E r, st !! E = Some r -> record_ordered r.

(** Every recorded kind is one of the two the engine knows. *)
Definition kinds_known (st : gmap string ReminderRecord) : Prop :=
  forall E r K, st !! E = Some r -> K ∈ sent r -> K ∈ ["2h"; "10m"].

(** [ReminderEngine.start] and [ReminderEngine.stop]: the [_running]
    flag and the calls made on the [BackgroundScheduler], in order, when
    those calls return.  [add_job] keeps the job id, the interval in
    minutes and [max_instances]. *)
Module ReminderEngine.

Inductive scheduler_call :=
| add_job (job_id : string) (interval_minutes : Z) (max_instances : Z)
| scheduler_start
| scheduler_shutdown.

Record t := {
  _running : bool;
  scheduler : list scheduler_call
}.

Definition init : t := {| _running := false; scheduler := [] |}.

Definition start (self : t) : t :=
  if _running self then self
  else {| _running := true;
          scheduler := scheduler self ++ [add_job "reminder-poll" 1 1; scheduler_start] |}.

Definition stop (self : t) : t :=
  if _running self
  then {| _running := false; scheduler := scheduler self ++ [scheduler_shutdown] |}
  else self.

Inductive command := Start | Stop.

Definition run (self : t) (c : command) : t :=
  match c with
  | Start => start self
  | Stop => stop self
  end.

(** The scheduler calls of a well-used scheduler: each start comes with
    its job and is followed, if by anything, by a shutdown. *)
Fixpoint alternating (running : bool) (calls : list scheduler_call) : bool :=
  match calls with
  | [] => true
  | add_job _ _ _ :: scheduler_start :: calls' => negb running && alternating true calls'
  | scheduler_shutdown :: calls' => running && alternating false calls'
  | _ => false
  end.

End ReminderEngine.

(** Every reminder of [event] that is due at [now] is recorded in [st]
    under the event's current key. *)
Definition settled (env : Env) (now : datetime) (st : gmap string ReminderRecord)
    (event : EventResponse.t) : Prop :=
  forall start k trigger (tpl : string -> string),
    aware_start env event = Ok start ->
    (k, trigger, tpl) ∈ reminders start ->
    dt_ge now trigger = Ok true ->
    has_sent st (EventResponse.id event) k (updated_key env event) = true.

(** [n] complete rounds of start and shutdown, then an open start if
    the engine is running. *)
Definition rounds (n : nat) (running : bool) : list ReminderEngine.scheduler_call :=
  mjoin (replicate n [ReminderEngine.add_job "reminder-poll" 1 1;
                      ReminderEngine.scheduler_start;
                      ReminderEngine.scheduler_shutdown])
  ++ (if running
      then [ReminderEngine.add_job "reminder-poll" 1 1; ReminderEngine.scheduler_start]
      else []).

(** ** The SMS intents: [app/llm_parser.py] and [handle_intent] of [app/main.py] *)

(** [keyword in s] on strings. *)
Fixpoint contains (keyword s : string) : bool :=
  String.prefix keyword s ||
  match s with
  | EmptyString => false
  | String _ s' => contains keyword s'
  end.

(** A value of a payload dictionary: a string, a datetime (after
    [fromisoformat]), or anything else, of which only its truth value
    matters. *)
Inductive pyval :=
| PyStr (s : string)
| PyDatetime (d : datetime)
| PyOther (truthy : bool).

Module LLMParser.

(** The [Literal] of [IntentResult.intent]. *)
Inductive intent_name :=
| create_event
| reschedule_event
| cancel_event
| list_events
| unknown.

#[global] Instance intent_name_eq_dec : EqDecision intent_name.
Proof. solve_decision. Defined.

(** [IntentResult]; [confidence] in hundredths (the literals [0.0],
    [0.1], [0.35] and [0.5] are [0], [10], [35] and [50]). *)
Record IntentResult := {
  intent : intent_name;
  payload : gmap string pyval;
  original_text : string;
  confidence : Z
}.

Section Parser.
(** [str.lower] and [str.strip]. *)
Variable lower : string -> string.
Variable strip : string -> string.

Definition any_keyword (keywords : list string) (lowered : string) : bool :=
  existsb (fun keyword => contains keyword lowered) keywords.

Definition _fallback_intent (text : string) : IntentResult :=
  let lowered := lower text in
  let payload : gmap string pyval := {[ "text" := PyStr text ]} in
  let intent :=
    if any_keyword ["add"; "create"; "schedule"] lowered then create_event
    else if any_keyword ["move"; "reschedule"; "delay"; "shift"] lowered then reschedule_event
    else if any_keyword ["cancel"; "delete"; "remove"] lowered then cancel_event
    else if contains "what" lowered && contains "schedule" lowered || contains "list" lowered
         then list_events
    else unknown in
  let confidence := if bool_decide (intent = unknown) then 10 else 50 in
  {| intent := intent; payload := payload; original_text := text; confidence := confidence |}.

(** [parse_intent].  [client] is [self._client]; applied to the text it
    gives what lines 46-65 build from the model's answer (the intent if
    it is one of the five names, the payload, the confidence), or [None]
    when anything in that [try] raised. *)
Definition parse_intent
    (client : option (string -> option (option intent_name * gmap string pyval * Z)))
    (text : string) : IntentResult :=
  let text := strip text in
  if bool_decide (text = "") then
    {| intent := unknown; payload := ∅; original_text := text; confidence := 0 |}
  else
    match client with
    | Some respond =>
        match respond text with
        | Some (name, payload, confidence) =>
            {| intent := default unknown name; payload := payload;
               original_text := text; confidence := confidence |}
        | None => _fallback_intent text
        end
    | None => _fallback_intent text
    end.

End Parser.
End LLMParser.

Module Main.
Import LLMParser.

Inductive exception :=
| CalendarError
| ValueError
| OtherException.

Record EventCreateRequest := {
  create_summary : string;
  create_start_time : datetime;
  create_end_time : datetime;
  create_description : option string;
  create_timezone : option string
}.

Record EventUpdateRequest := {
  update_summary : option string;
  update_start_time : option datetime;
  update_end_time : option datetime;
  update_description : option string
}.

(** The calls [handle_intent] makes on the calendar client. *)
Inductive calendar_call :=
| list_events_today
| create_event_call (request : EventCreateRequest)
| update_event_call (event_id : pyval) (request : EventUpdateRequest)
| delete_event_call (event_id : pyval).

Definition truthy (v : pyval) : bool :=
  match v with
  | PyStr s => negb (bool_decide (s = ""))
  | PyDatetime _ => true
  | PyOther b => b
  end.

Definition newline : string := String (Ascii.ascii_of_nat 10) "".

Section Handler.
(** [datetime.fromisoformat] ([None]: [ValueError]); the pydantic
    constructors ([None]: [ValidationError], a [ValueError]); what the
    calendar client answers; and [format_local_time]. *)
Variable fromisoformat : string -> option datetime.
Variable validate_create : gmap string pyval -> option EventCreateRequest.
Variable validate_update : gmap string pyval -> option EventUpdateRequest.
Variable calendar_list : exception + list EventResponse.t.
Variable calendar_create : EventCreateRequest -> exception + EventResponse.t.
Variable calendar_update : pyval -> EventUpdateRequest -> exception + EventResponse.t.
Variable calendar_delete : pyval -> exception + unit.
Variable format_local_time : datetime -> string.

(** [if isinstance(data.get(field), str): data[field] = datetime.fromisoformat(data[field])] *)
Definition parse_time_field (field : string) (data : gmap string pyval)
  : exception + gmap string pyval :=
  match data !! field with
  | Some (PyStr s) =>
      match fromisoformat s with
      | Some d => inr (<[field := PyDatetime d]> data)
      | None => inl ValueError
      end
  | _ => inr data
  end.

Definition build_event_create (payload : gmap string pyval) : exception + EventCreateRequest :=
  if forallb (fun field => bool_decide (is_Some (payload !! field)))
       ["summary"; "start_time"; "end_time"]
  then
    match parse_time_field "start_time" payload with
    | inl e => inl e
    | inr data =>
        match parse_time_field "end_time" data with
        | inl e => inl e
        | inr data =>
            match validate_create data with
            | Some request => inr request
            | None => inl ValueError
            end
        end
    end
  else inl ValueError.

Definition build_event_update (payload : gmap string pyval)
  : exception + (pyval * EventUpdateRequest) :=
  match payload !! "event_id" with
  | None => inl ValueError
  | Some event_id =>
      let data := delete "event_id" payload in
      match parse_time_field "start_time" data with
      | inl e => inl e
      | inr data =>
          match parse_time_field "end_time" data with
          | inl e => inl e
          | inr data =>
              if bool_decide (data = ∅) then inl ValueError
              else match validate_update data with
                   | Some request => inr (event_id, request)
                   | None => inl ValueError
                   end
          end
      end
  end.

Definition format_event_line (event : EventResponse.t) : string :=
  "• " +:+ format_local_time (EventResponse.start_time event) +:+ " - "
       +:+ format_local_time (EventResponse.end_time event) +:+ ": "
       +:+ EventResponse.summary event.

(** The two [except] clauses of [handle_intent]; any other exception
    goes on to the caller. *)
Definition caught (e : exception) : exception + string :=
  match e with
  | CalendarError => inr "😬 Google Calendar didn't like that. Try again in a sec?"
  | ValueError => inr "🤔 I need a bit more info to do that. Can you rephrase?"
  | OtherException => inl OtherException
  end.

(** [handle_intent]: the calendar calls made, in order, and the reply
    or the exception that leaves the function. *)
Definition handle_intent (intent : IntentResult) : list calendar_call * (exception + string) :=
  match LLMParser.intent intent with
  | list_events =>
      ([list_events_today],
       match calendar_list with
       | inl e => caught e
       | inr [] => inr "📭 Nothing on the books today. Enjoy the free time!"
       | inr events =>
           inr (String.concat newline ("📅 Here's today:" :: map format_event_line events))
       end)
  | create_event =>
      match build_event_create (payload intent) with
      | inl e => ([], caught e)
      | inr request =>
          ([create_event_call request],
           match calendar_create request with
           | inl e => caught e
           | inr event =>
               inr ("✨ Added '" +:+ EventResponse.summary event +:+ "' at "
                      +:+ format_local_time (EventResponse.start_time event))
           end)
      end
  | reschedule_event =>
      match build_event_update (payload intent) with
      | inl e => ([], caught e)
      | inr (event_id, request) =>
          ([update_event_call event_id request],
           match calendar_update event_id request with
           | inl e => caught e
           | inr event =>
               inr ("🔁 Rescheduled '" +:+ EventResponse.summary event +:+ "' to "
                      +:+ format_local_time (EventResponse.start_time event))
           end)
      end
  | cancel_event =>
      match payload intent !! "event_id" with
      | Some event_id =>
          if truthy event_id then
            ([delete_event_call event_id],
             match calendar_delete event_id with
             | inl e => caught e
             | inr _ => inr "🗑️ Got it — event canceled."
             end)
          else ([], caught ValueError)
      | None => ([], caught ValueError)
      end
  | unknown => ([], inr "Sorry, I didn't understand that — mind rephrasing?")
  end.

End Handler.
End Main.

(** ** [GoogleCalendarClient._normalize_event] of [app/calendar_service.py] *)

Module GoogleCalendarClient.

(** The value of ["start"] or ["end"] in an event of the Calendar API. *)
Record event_time := {
  dateTime : option string;
  timeZone : option string
}.

(** The keys [_normalize_event] reads in an event of the Calendar API;
    [None] is a missing key. *)
Record api_event := {
  api_id : option string;
  api_summary : option string;
  api_start : option event_time;
  api_end : option event_time;
  api_updated : option string;
  api_created : option string
}.

(** [value.replace("Z", "+00:00")] *)
Fixpoint replace_Z (value : string) : string :=
  match value with
  | EmptyString => EmptyString
  | String c rest =>
      if Ascii.eqb c (Ascii.ascii_of_nat 90) then "+00:00" +:+ replace_Z rest
      else String c (replace_Z rest)
  end.

(** A string as a condition: only the empty string is false. *)
Definition nonempty (value : option string) : option string :=
  match value with
  | Some s => if bool_decide (s = "") then None else Some s
  | None => None
  end.

Section Normalize.
(** [datetime.fromisoformat], [None] when it raises [ValueError]. *)
Variable fromisoformat : string -> option datetime.
Variable settings_timezone : string.

(** [_parse_rfc3339]; [clock] is what [datetime.now(timezone.utc)]
    reads if it is called. *)
Definition _parse_rfc3339 (clock : Z) (value : option string) : option datetime :=
  match nonempty value with
  | None => Some {| wall := clock; tzinfo := Some (tz_fixed 0); fold := false |}
  | Some v => fromisoformat (replace_Z v)
  end.

(** [_normalize_event]; [None] when an exception leaves it (a
    [ValueError] of [fromisoformat], or the [ValidationError] of
    [EventResponse] for a missing id).  [clock_start] and [clock_end] are
    the clock readings at the parse of the start and of the end. *)
Definition _normalize_event (clock_start clock_end : Z) (event : api_event)
  : option EventResponse.t :=
  let start := default {| dateTime := None; timeZone := None |} (api_start event) in
  let finish := default {| dateTime := None; timeZone := None |} (api_end event) in
  let timezone_name := default settings_timezone (nonempty (timeZone start)) in
  match _parse_rfc3339 clock_start (dateTime start) with
  | None => None
  | Some start_dt =>
      match _parse_rfc3339 clock_end (dateTime finish) with
      | None => None
      | Some end_dt =>
          let updated :=
            match nonempty (api_updated event) with
            | Some u => Some u
            | None => api_created event
            end in
          let updated_dt :=
            match nonempty updated with
            | Some u => option_map Some (_parse_rfc3339 clock_end (Some u))
            | None => Some None
            end in
          match updated_dt, api_id event with
          | Some updated_at, Some event_id =>
              Some {| EventResponse.id := event_id;
                      EventResponse.summary := default "(no title)" (api_summary event);
                      EventResponse.start_time := start_dt;
                      EventResponse.end_time := end_dt;
                      EventResponse.timezone := timezone_name;
                      EventResponse.updated_at := updated_at |}
          | _, _ => None
          end
      end
  end.

End Normalize.
End GoogleCalendarClient.

(** ** [format_local_time] of [app/main.py] *)

Definition digit (n : Z) : string := String (Ascii.ascii_of_nat (48 + Z.to_nat n)) "".

(** A number below 100 on two digits, as [%I], [%H] and [%M] print it. *)
Definition two_digits (n : Z) : string := digit (n / 10) +:+ digit (n mod 10).

(** [s.lstrip("0")] *)
Fixpoint lstrip_zeros (s : string) : string :=
  match s with
  | EmptyString => EmptyString
  | String c rest =>
      if Ascii.eqb c (Ascii.ascii_of_nat 48) then lstrip_zeros rest else s
  end.

Section LocalTime.
(** The UTC offset of the system's local zone. *)
Variable local_offset : Z.

(** [dt.astimezone()]: the wall clock in the local zone; a naive value
    is taken to be local time already. *)
Definition astimezone (dt : datetime) : datetime :=
  match utcoffset dt with
  | Some off =>
      {| wall := wall dt - off + local_offset; tzinfo := Some (tz_fixed local_offset);
         fold := false |}
  | None => {| wall := wall dt; tzinfo := Some (tz_fixed local_offset); fold := false |}
  end.

Definition hour_of (dt : datetime) : Z := (wall dt / hours 1) mod 24.
Definition minute_of (dt : datetime) : Z := (wall dt / minutes 1) mod 60.

(** [dt.strftime("%I:%M %p")] *)
Definition strftime_I_M_p (dt : datetime) : string :=
  let h := hour_of dt in
  two_digits (if h mod 12 =? 0 then 12 else h mod 12) +:+ ":" +:+ two_digits (minute_of dt)
    +:+ " " +:+ (if h <? 12 then "AM" else "PM").

(** [dt.strftime("%H:%M")] *)
Definition strftime_H_M (dt : datetime) : string :=
  two_digits (hour_of dt) +:+ ":" +:+ two_digits (minute_of dt).

Definition format_local_time (dt : datetime) : string :=
  let local := astimezone dt in
  let short := lstrip_zeros (strftime_I_M_p local) in
  if bool_decide (short = "") then strftime_H_M local else short.

End LocalTime.

(** The mapping in memory is the one a store object built anew on the
    file would load. *)
Definition synced (w : World) : Prop :=
  match st_file w with
  | Missing => st_state w = ∅
  | Snapshot m => st_state w = m
  | Partial => False
  end.

(** ** The OAuth state cache of [app/oauth.py] *)

Module OAuth.

Inductive response :=
| authorization (state : string)     (* the dict returned by [start_oauth] *)
| connected                          (* the token was fetched and saved *)
| http_400                           (* HTTPException(400) *)
| token_error.                       (* [flow.fetch_token] raised *)

(** [start_oauth]: [state] is the fresh [secrets.token_urlsafe(16)],
    [returned_state] what [flow.authorization_url] gave back. *)
Definition start_oauth (state returned_state : string) (_state_cache : gmap string string)
  : gmap string string * response :=
  (<[state := returned_state]> _state_cache, authorization returned_state).

(** [oauth_callback]: [fetch_ok] tells whether [flow.fetch_token]
    returns; the credentials are saved only after it has. *)
Definition oauth_callback (fetch_ok : bool) (state : string) (_state_cache : gmap string string)
  : gmap string string * response :=
  match _state_cache !! state with
  | Some cached =>
      let cache := delete state _state_cache in
      if bool_decide (cached = "") then (cache, http_400)
      else if fetch_ok then (cache, connected)
      else (cache, token_error)
  | None => (_state_cache, http_400)
  end.

End OAuth.

(** * Properties *)

(** ** The store *)

Section StoreFacts.
Variable env : Env.
Implicit Types (w : World) (st : gmap string ReminderRecord).
Implicit Types (E K V : string).

Lemma persist_state w : st_state (_persist env w).1 = st_state w.
Proof. unfold _persist. by destruct (io_at env (persist_calls w)). Qed.

Lemma persist_trace w : trace (_persist env w).1 = trace w.
Proof. unfold _persist. by destruct (io_at env (persist_calls w)). Qed.

Lemma persist_result w :
  (_persist env w).2 =
  match io_at env (persist_calls w) with IoOk => Ok tt | _ => Raise OSError end.
Proof. unfold _persist. by destruct (io_at env (persist_calls w)). Qed.

Lemma mark_sent_unfold E K V w :
  mark_sent env E K V w =
  _persist env
    {| st_state := <[E := marked (st_state w) E K V]> (st_state w);
       st_file := st_file w; persist_calls := persist_calls w;
       sms_calls := sms_calls w; trace := trace w ++ [MarkSent E K V] |}.
Proof. reflexivity. Qed.

Lemma mark_sent_state E K V w :
  st_state (mark_sent env E K V w).1 = <[E := marked (st_state w) E K V]> (st_state w).
Proof. rewrite mark_sent_unfold. by rewrite persist_state. Qed.

Lemma mark_sent_persist_calls E K V w :
  persist_calls (mark_sent env E K V w).1 = S (persist_calls w).
Proof.
  rewrite mark_sent_unfold. unfold _persist. simpl.
  by destruct (io_at env (persist_calls w)).
Qed.

Lemma mark_sent_result E K V w :
  (mark_sent env E K V w).2 =
  match io_at env (persist_calls w) with IoOk => Ok tt | _ => Raise OSError end.
Proof. rewrite mark_sent_unfold. by rewrite persist_result. Qed.

Lemma sort_elem_of (x : string) (l : list string) : x ∈ sort l <-> x ∈ l.
Proof. unfold sort. by rewrite merge_sort_Permutation. Qed.

Lemma sort_NoDup (l : list string) : NoDup (sort l) <-> NoDup l.
Proof. unfold sort. by rewrite merge_sort_Permutation. Qed.

Lemma marked_last_updated st E K V : last_updated (marked st E K V) = V.
Proof.
  unfold marked.
  set (r0 := match st !! E with Some r => r | None => _ end).
  set (r1 := if bool_decide (last_updated r0 ≠ V) then _ else r0).
  assert (last_updated r1 = V) as H1.
  { subst r1. destruct (decide (last_updated r0 = V)) as [Heq|Hne].
    - by rewrite bool_decide_eq_false_2 by (intros H; by apply H).
    - by rewrite bool_decide_eq_true_2. }
  by destruct (bool_decide (K ∈ sent r1)).
Qed.

Lemma marked_elem_of st E K V : K ∈ sent (marked st E K V).
Proof.
  unfold marked.
  set (r0 := match st !! E with Some r => r | None => _ end).
  set (r1 := if bool_decide (last_updated r0 ≠ V) then _ else r0).
  destruct (bool_decide_reflect (K ∈ sent r1)) as [Hin|Hnin]; [done|].
  simpl. apply sort_elem_of. set_solver.
Qed.

(** Once [K] is recorded under [V], marking it again computes the very
    record that is already stored. *)
Lemma marked_fixpoint st E K V :
  marked (<[E := marked st E K V]> st) E K V = marked st E K V.
Proof.
  unfold marked at 1. rewrite lookup_insert_eq. cbv zeta.
  rewrite marked_last_updated.
  rewrite (bool_decide_eq_false_2 (V ≠ V)) by (intros H; by apply H).
  by rewrite bool_decide_eq_true_2 by apply marked_elem_of.
Qed.

Lemma marked_version_change st E K V r :
  st !! E = Some r -> last_updated r ≠ V ->
  marked st E K V = {| sent := [K]; last_updated := V |}.
Proof.
  intros Hr Hne. unfold marked. rewrite Hr. cbv zeta.
  rewrite (bool_decide_eq_true_2 (last_updated r ≠ V)) by done.
  rewrite bool_decide_eq_false_2; [reflexivity|].
  simpl. apply not_elem_of_nil.
Qed.

Lemma marked_NoDup st E K V :
  (forall r, st !! E = Some r -> NoDup (sent r)) -> NoDup (sent (marked st E K V)).
Proof.
  intros Hnd. unfold marked.
  set (r0 := match st !! E with Some r => r | None => _ end).
  assert (NoDup (sent r0)) as H0.
  { subst r0. destruct (st !! E) as [r|] eqn:Hr; [by apply Hnd | apply NoDup_nil_2]. }
  set (r1 := if bool_decide (last_updated r0 ≠ V) then _ else r0).
  assert (NoDup (sent r1)) as H1.
  { subst r1. destruct (bool_decide (last_updated r0 ≠ V)); [apply NoDup_nil_2 | done]. }
  destruct (bool_decide_reflect (K ∈ sent r1)) as [Hin|Hnin]; [done|].
  simpl. apply sort_NoDup. apply NoDup_app. split; [done|].
  split; [|apply NoDup_singleton].
  intros x Hx Hk. apply list_elem_of_singleton in Hk. by subst x.
Qed.

Lemma has_sent_no_record st E K V : st !! E = None -> has_sent st E K V = false.
Proof. intros H. unfold has_sent. by rewrite H. Qed.

Lemma has_sent_after_mark E K V w :
  has_sent (st_state (mark_sent env E K V w).1) E K V = true.
Proof.
  rewrite mark_sent_state. unfold has_sent. rewrite lookup_insert_eq.
  rewrite marked_last_updated.
  rewrite (bool_decide_eq_false_2 (V ≠ V)) by (intros H; by apply H).
  apply bool_decide_eq_true_2, marked_elem_of.
Qed.

Lemma has_sent_other_version E K V V' w :
  V ≠ V' -> has_sent (st_state (mark_sent env E K V w).1) E K V' = false.
Proof.
  intros Hne. rewrite mark_sent_state. unfold has_sent. rewrite lookup_insert_eq.
  rewrite marked_last_updated. by rewrite bool_decide_eq_true_2.
Qed.

End StoreFacts.

(** C1.  After [mark_sent(E, K, V)] on any store state, whatever the
    write to disk did, [has_sent(E, K, V)] is true and
    [has_sent(E, K, V')] is false for every other version [V']; and for
    an event id without a record [has_sent] is false for every kind and
    version. *)
Theorem mark_sent_then_has_sent :
  (forall env w E K V V', V ≠ V' ->
     let w' := (mark_sent env E K V w).1 in
     has_sent (st_state w') E K V = true /\
     has_sent (st_state w') E K V' = false) /\
  (forall st E K V, st !! E = None -> has_sent st E K V = false).
Proof.
  split.
  - intros env w E K V V' Hne. simpl. split.
    + apply has_sent_after_mark.
    + by apply has_sent_other_version.
  - apply has_sent_no_record.
Qed.

Lemma mark_sent_then_has_sent_witness :
  has_sent (st_state (mark_sent env_ok "evt-1" "2h" "v1" fresh_world).1) "evt-1" "2h" "v1" = true /\
  has_sent (st_state (mark_sent env_ok "evt-1" "2h" "v1" fresh_world).1) "evt-1" "2h" "v2" = false /\
  has_sent (st_state fresh_world) "evt-1" "2h" "v1" = false.
Proof.
  destruct mark_sent_then_has_sent as [Hmark Hnone].
  destruct (Hmark env_ok fresh_world "evt-1" "2h" "v1" "v2") as [Hsame Hother];
    [discriminate|].
  split; [exact Hsame|]. split; [exact Hother|].
  apply Hnone. reflexivity.
Defined.

(** C9.  [mark_sent(E, K, V)] with [V] different from the version in
    [E]'s record leaves under [E] the record with [sent = [K]] and
    [last_updated = V], and leaves every other event id as it was. *)
Theorem mark_sent_version_change env w E K V r :
  st_state w !! E = Some r ->
  last_updated r ≠ V ->
  let w' := (mark_sent env E K V w).1 in
  st_state w' !! E = Some {| sent := [K]; last_updated := V |} /\
  (forall E', E' ≠ E -> st_state w' !! E' = st_state w !! E').
Proof.
  intros Hr Hne. simpl. rewrite mark_sent_state. split.
  - rewrite lookup_insert_eq. f_equal. by eapply marked_version_change.
  - intros E' HE'. by rewrite lookup_insert_ne.
Qed.

Lemma mark_sent_version_change_witness :
  let m : gmap string ReminderRecord :=
    <["evt-1" := {| sent := ["10m"; "2h"]; last_updated := "v1" |}]>
      (<["evt-2" := {| sent := ["2h"]; last_updated := "v1" |}]> ∅) in
  let w' := (mark_sent env_ok "evt-1" "2h" "v2" (world_of m)).1 in
  st_state w' !! "evt-1" = Some {| sent := ["2h"]; last_updated := "v2" |} /\
  st_state w' !! "evt-2" = Some {| sent := ["2h"]; last_updated := "v1" |}.
Proof.
  intros m w'.
  destruct (mark_sent_version_change env_ok (world_of m) "evt-1" "2h" "v2"
              {| sent := ["10m"; "2h"]; last_updated := "v1" |}) as [Hrec Hframe].
  - reflexivity.
  - discriminate.
  - split; [exact Hrec|]. subst w'. rewrite Hframe by discriminate. reflexivity.
Defined.

(** C10.  A second [mark_sent] with the same (event id, kind, version)
    leaves the in-memory mapping, hence the record's [sent] list, exactly
    as the first call left it; a list without duplicates stays without
    duplicates; and the second call returns normally whenever its write
    does, the file then holding that same mapping, which is what the
    first call had written when its write succeeded too. *)
Theorem mark_sent_idempotent env w E K V :
  let w1 := (mark_sent env E K V w).1 in
  let w2 := (mark_sent env E K V w1).1 in
  st_state w2 = st_state w1 /\
  sent <$> (st_state w2 !! E) = sent <$> (st_state w1 !! E) /\
  ((forall r, st_state w !! E = Some r -> NoDup (sent r)) ->
   forall r2, st_state w2 !! E = Some r2 -> NoDup (sent r2)) /\
  (io_at env (persist_calls w1) = IoOk ->
   (mark_sent env E K V w1).2 = Ok tt /\ st_file w2 = Snapshot (st_state w1) /\
   (io_at env (persist_calls w) = IoOk -> st_file w2 = st_file w1)).
Proof.
  simpl.
  assert (st_state (mark_sent env E K V (mark_sent env E K V w).1).1
          = st_state (mark_sent env E K V w).1) as Hst.
  { rewrite !mark_sent_state, marked_fixpoint. apply insert_insert_eq. }
  split; [exact Hst|]. split; [by rewrite Hst|]. split.
  - intros Hnd r2. rewrite Hst, mark_sent_state, lookup_insert_eq.
    intros [= <-]. by apply marked_NoDup.
  - intros Hio. rewrite mark_sent_result, Hio. split; [done|].
    assert (st_file (mark_sent env E K V (mark_sent env E K V w).1).1
            = Snapshot (st_state (mark_sent env E K V w).1)) as Hfile.
    { rewrite (mark_sent_unfold env E K V (mark_sent env E K V w).1).
      unfold _persist. cbn [persist_calls st_state st_file].
      rewrite Hio. cbn [fst st_file]. f_equal.
      rewrite mark_sent_state, marked_fixpoint. apply insert_insert_eq. }
    split; [exact Hfile|].
    intros Hio0. rewrite Hfile.
    rewrite (mark_sent_unfold env E K V w) at 2.
    unfold _persist. cbn [persist_calls st_state st_file].
    rewrite Hio0. cbn [fst st_file]. f_equal.
    by rewrite mark_sent_state.
Qed.

Lemma mark_sent_idempotent_witness :
  let w1 := (mark_sent env_ok "evt-1" "2h" "v1" fresh_world).1 in
  let w2 := (mark_sent env_ok "evt-1" "2h" "v1" w1).1 in
  st_state w2 = st_state w1 /\
  (forall r2, st_state w2 !! "evt-1" = Some r2 -> NoDup (sent r2)) /\
  (mark_sent env_ok "evt-1" "2h" "v1" w1).2 = Ok tt /\
  st_file w2 = st_file w1.
Proof.
  intros w1 w2.
  destruct (mark_sent_idempotent env_ok fresh_world "evt-1" "2h" "v1")
    as (Hst & _ & Hnd & Hok).
  split; [exact Hst|]. split.
  - apply Hnd. intros r Hr. discriminate Hr.
  - destruct Hok as (Hr & _ & Hfile); [reflexivity|].
    split; [exact Hr|]. apply Hfile. reflexivity.
Defined.

(** ** Failed writes *)

(** C2, as the specification states it, fails on a fresh store whose
    first write cannot open the file: the call raises, yet the kind counts
    as sent from then on, with nothing on disk. *)
Lemma failed_write_still_counts_as_sent : ~ failed_write_leaves_send_unrecorded.
Proof.
  intros Hspec.
  destruct (Hspec (env_of (fun _ => IoOpenFails) (fun _ _ => true))
                  fresh_world "evt-1" "2h" "v1") as (_ & Hsame & _).
  - discriminate.
  - vm_compute in Hsame. discriminate Hsame.
Qed.

(** C2, amended.  When the write of [mark_sent(E, K, V)] fails, the call
    raises [OSError] to its caller; the in-memory mapping has already
    been updated exactly as in a successful call and is not rolled back,
    so [has_sent(E, K, V)] is true afterwards, while the file holds its
    previous content or a partial document. *)
Theorem mark_sent_write_failure env w E K V :
  io_at env (persist_calls w) ≠ IoOk ->
  let w' := (mark_sent env E K V w).1 in
  (mark_sent env E K V w).2 = Raise OSError /\
  st_state w' = <[E := marked (st_state w) E K V]> (st_state w) /\
  has_sent (st_state w') E K V = true /\
  (st_file w' = st_file w \/ st_file w' = Partial).
Proof.
  intros Hio. simpl.
  split; [|split; [apply mark_sent_state | split; [apply has_sent_after_mark|]]].
  - rewrite mark_sent_result. by destruct (io_at env (persist_calls w)).
  - rewrite mark_sent_unfold. unfold _persist. simpl.
    destruct (io_at env (persist_calls w)); [done | by left | by right].
Qed.

Lemma mark_sent_write_failure_witness :
  let env := env_of (fun _ => IoWriteFails) (fun _ _ => true) in
  let w' := (mark_sent env "evt-1" "2h" "v1" fresh_world).1 in
  (mark_sent env "evt-1" "2h" "v1" fresh_world).2 = Raise OSError /\
  has_sent (st_state w') "evt-1" "2h" "v1" = true /\
  (st_file w' = Missing \/ st_file w' = Partial).
Proof.
  intros env w'.
  destruct (mark_sent_write_failure env fresh_world "evt-1" "2h" "v1")
    as (Hraise & _ & Hsent & Hfile).
  - discriminate.
  - split; [exact Hraise|]. split; [exact Hsent | exact Hfile].
Defined.

(** C5, as the specification states it, fails when the dump of a
    [mark_sent] breaks off: the file that held a valid snapshot is left
    partial, and a later [_load] of it raises. *)
Lemma interrupted_write_loses_snapshot : ~ snapshot_overwritten_atomically.
Proof.
  intros Hspec.
  set (env := env_of (fun _ => IoWriteFails) (fun _ _ => true)).
  destruct (Hspec env (world_of ∅) ∅ (mark_sent env "evt-1" "2h" "v1")) as [H|H].
  - left. by exists "evt-1", "2h", "v1".
  - reflexivity.
  - vm_compute in H. discriminate H.
  - vm_compute in H. discriminate H.
Qed.

(** C5, amended.  A mutation rewrites the state file in place.  For
    [mark_sent], and for [clear_event] of an id that has a record: when
    the write completes the file holds exactly the in-memory mapping;
    when the open fails the file is as before; when the dump fails the
    file is left partial, and loading it raises.  [clear_event] of an id
    without a record writes nothing. *)
Theorem mutation_rewrites_file_in_place env w :
  (forall E K V,
     let w' := (mark_sent env E K V w).1 in
     st_file w' = match io_at env (persist_calls w) with
                  | IoOk => Snapshot (st_state w')
                  | IoOpenFails => st_file w
                  | IoWriteFails => Partial
                  end) /\
  (forall E,
     let w' := (clear_event env E w).1 in
     match st_state w !! E with
     | Some _ =>
         st_file w' = match io_at env (persist_calls w) with
                      | IoOk => Snapshot (st_state w')
                      | IoOpenFails => st_file w
                      | IoWriteFails => Partial
                      end
     | None => st_file w' = st_file w /\ persist_calls w' = persist_calls w
     end) /\
  (forall w0, st_file w0 = Partial -> (_load w0).2 = Raise JSONDecodeError).
Proof.
  split; [|split].
  - intros E K V. simpl. rewrite mark_sent_unfold. unfold _persist. simpl.
    by destruct (io_at env (persist_calls w)).
  - intros E. simpl. unfold clear_event, bind, emit, set_state. simpl.
    destruct (st_state w !! E) as [r|]; [|done].
    unfold _persist. simpl. by destruct (io_at env (persist_calls w)).
  - intros w0 Hw0. unfold _load. by rewrite Hw0.
Qed.

Lemma mutation_rewrites_file_in_place_witness :
  let env := env_of (fun _ => IoWriteFails) (fun _ _ => true) in
  (_load (mark_sent env "evt-1" "2h" "v1" (world_of ∅)).1).2 = Raise JSONDecodeError.
Proof.
  intros env.
  destruct (mutation_rewrites_file_in_place env (world_of ∅)) as (Hmark & _ & Hload).
  apply Hload. rewrite Hmark. reflexivity.
Defined.

(** ** The tick *)

Section EngineFacts.
Variable env : Env.
Implicit Types (w : World) (event : EventResponse.t) (now : datetime).

Lemma bind_unfold {A B} (c : M A) (k : A -> M B) w :
  bind c k w = match c w with
               | (w', Ok a) => k a w'
               | (w', Raise e) => (w', Raise e)
               end.
Proof. reflexivity. Qed.

Lemma for_each_cons {A} (x : A) l (f : A -> M unit) w :
  for_each (x :: l) f w =
  match f x w with
  | (w', Ok _) => for_each l f w'
  | (w', Raise e) => (w', Raise e)
  end.
Proof. reflexivity. Qed.

(** A loop whose body always returns normally runs to its end. *)
Lemma for_each_ok {A} (l : list A) (f : A -> M unit) w :
  (forall x w0, x ∈ l -> (f x w0).2 = Ok tt) ->
  (for_each l f w).2 = Ok tt.
Proof.
  revert w. induction l as [|x l IH]; intros w Hf; [reflexivity|].
  rewrite for_each_cons.
  pose proof (Hf x w ltac:(left)) as Hx.
  destruct (f x w) as [w1 [[]|e]]; simpl in Hx; [|discriminate].
  apply IH. intros y w0 Hy. apply Hf. by right.
Qed.

Lemma for_each_skip {A} (l : list A) (f : A -> M unit) w :
  (forall x, x ∈ l -> f x w = (w, Ok tt)) -> for_each l f w = (w, Ok tt).
Proof.
  induction l as [|x l IH]; intros Hf; [reflexivity|].
  rewrite for_each_cons, (Hf x) by left. apply IH. intros y Hy. apply Hf. by right.
Qed.

Lemma for_each_app {A} (l1 l2 : list A) (f : A -> M unit) w :
  for_each (l1 ++ l2) f w =
  match for_each l1 f w with
  | (w', Ok _) => for_each l2 f w'
  | (w', Raise e) => (w', Raise e)
  end.
Proof.
  revert w. induction l1 as [|x l1 IH]; intros w; [reflexivity|].
  simpl app. rewrite !for_each_cons.
  destruct (f x w) as [w1 [[]|e]]; [apply IH | reflexivity].
Qed.


Lemma tick_reminder_unfold now event k trigger (tpl : string -> string) w :
  _tick_reminder env now event (k, trigger, tpl) w =
  match dt_ge now trigger with
  | Ok due =>
      if due && negb (has_sent (st_state w) (EventResponse.id event) k (updated_key env event))
      then try_except
             (send_message env (tpl (EventResponse.summary event)) ;;
              mark_sent env (EventResponse.id event) k (updated_key env event))
             (fun exc => emit (LogException (failed_to_send event) exc)) w
      else (w, Ok tt)
  | Raise e => (w, Raise e)
  end.
Proof. unfold _tick_reminder, bind, lift. by destruct (dt_ge now trigger). Qed.

(** The guarded send of lines 69-73, case by case: the send fails and
    the store is left alone, or the send succeeds and [mark_sent] runs,
    its failure being logged.  Nothing escapes the [except]. *)
Lemma attempt_spec body E K V msg w :
  let r := try_except (send_message env body ;; mark_sent env E K V)
             (fun exc => emit (LogException msg exc)) w in
  r.2 = Ok tt /\
  sms_calls r.1 = S (sms_calls w) /\
  ((sms_ok env (sms_calls w) body = false /\
    st_state r.1 = st_state w /\ st_file r.1 = st_file w /\
    persist_calls r.1 = persist_calls w /\
    trace r.1 = trace w ++ [SmsSend body false; LogException msg SmsError]) \/
   (sms_ok env (sms_calls w) body = true /\
    st_state r.1 = <[E := marked (st_state w) E K V]> (st_state w) /\
    persist_calls r.1 = S (persist_calls w) /\
    exists tail, trace r.1 = trace w ++ SmsSend body true :: MarkSent E K V :: tail /\
                 (tail = [] \/ tail = [LogException msg OSError]))).
Proof.
  unfold try_except, bind, send_message, mark_sent, bind, emit, set_state, _persist.
  cbn [st_state st_file persist_calls sms_calls trace].
  destruct (sms_ok env (sms_calls w) body) eqn:Hsms; cbn.
  - destruct (io_at env (persist_calls w)); cbn;
      (split; [reflexivity|]); (split; [reflexivity|]); right;
      (split; [reflexivity|]); (split; [reflexivity|]); (split; [reflexivity|]).
    + exists []. split; [|by left]. by rewrite <- !app_assoc.
    + exists [LogException msg OSError]. split; [|by right]. by rewrite <- !app_assoc.
    + exists [LogException msg OSError]. split; [|by right]. by rewrite <- !app_assoc.
  - split; [reflexivity|]. split; [reflexivity|]. left.
    repeat (split; [reflexivity|]). by rewrite <- !app_assoc.
Qed.





Lemma clear_event_unfold E w :
  clear_event env E w =
  let w1 := {| st_state := st_state w; st_file := st_file w;
               persist_calls := persist_calls w; sms_calls := sms_calls w;
               trace := trace w ++ [ClearEvent E] |} in
  match st_state w !! E with
  | Some _ =>
      _persist env {| st_state := delete E (st_state w); st_file := st_file w;
                      persist_calls := persist_calls w; sms_calls := sms_calls w;
                      trace := trace w ++ [ClearEvent E] |}
  | None => (w1, Ok tt)
  end.
Proof.
  unfold clear_event, bind, emit, set_state. simpl.
  by destruct (st_state w !! E).
Qed.

Lemma clear_event_trace E w : trace (clear_event env E w).1 = trace w ++ [ClearEvent E].
Proof.
  rewrite clear_event_unfold. simpl.
  destruct (st_state w !! E); [|done]. by rewrite persist_trace.
Qed.

(** The mapping after [clear_event], whatever its write did. *)
Lemma clear_event_state E w :
  st_state (clear_event env E w).1 = delete E (st_state w).
Proof.
  rewrite clear_event_unfold. cbv zeta.
  destruct (st_state w !! E) as [r|] eqn:Hr.
  - by rewrite persist_state.
  - simpl. symmetry. by apply delete_id.
Qed.





Lemma aware_start_aware event start :
  aware_start env event = Ok start -> is_Some (tzinfo start).
Proof.
  unfold aware_start. destruct (tzinfo (EventResponse.start_time event)) as [zone|] eqn:Htz.
  - intros [= <-]. by rewrite Htz.
  - destruct (ZoneInfo env _) as [zone|e]; [|discriminate]. intros [= <-]. by eexists.
Qed.

Lemma utcoffset_aware d : is_Some (tzinfo d) -> is_Some (utcoffset d).
Proof. intros [zone Hz]. unfold utcoffset. rewrite Hz. destruct zone; by eexists. Qed.

Lemma utcoffset_naive d : tzinfo d = None -> utcoffset d = None.
Proof. intros Hz. unfold utcoffset. by rewrite Hz. Qed.

Lemma dt_ge_aware a b :
  is_Some (tzinfo a) -> is_Some (tzinfo b) -> exists r, dt_ge a b = Ok r.
Proof.
  intros Ha Hb. unfold dt_ge. destruct (same_tzinfo a b); [by eexists|].
  destruct (utcoffset_aware a Ha) as [oa ->], (utcoffset_aware b Hb) as [ob ->]. by eexists.
Qed.

Lemma dt_lt_aware a b :
  is_Some (tzinfo a) -> is_Some (tzinfo b) -> exists r, dt_lt a b = Ok r.
Proof.
  intros Ha Hb. unfold dt_lt. destruct (same_tzinfo a b); [by eexists|].
  destruct (utcoffset_aware a Ha) as [oa ->], (utcoffset_aware b Hb) as [ob ->]. by eexists.
Qed.

(** A naive operand against an aware one. *)
Lemma dt_lt_naive_aware a b :
  tzinfo a = None -> is_Some (tzinfo b) -> dt_lt a b = Raise TypeError.
Proof.
  intros Ha Hb. unfold dt_lt.
  assert (same_tzinfo a b = false) as ->.
  { unfold same_tzinfo. rewrite Ha. by destruct Hb as [zone ->]. }
  rewrite (utcoffset_naive a Ha). by destruct (utcoffset_aware b Hb) as [ob ->].
Qed.

(** With aware operands no step of the reminder loop lets an exception out. *)
Lemma tick_reminder_ok now event k trigger (tpl : string -> string) w :
  is_Some (tzinfo now) -> is_Some (tzinfo trigger) ->
  (_tick_reminder env now event (k, trigger, tpl) w).2 = Ok tt.
Proof.
  intros Hnow Htrig. rewrite tick_reminder_unfold.
  destruct (dt_ge_aware now trigger Hnow Htrig) as [due ->].
  destruct (due && negb _); [|reflexivity].
  apply attempt_spec.
Qed.

Lemma tick_event_ok now event start w :
  is_Some (tzinfo now) ->
  aware_start env event = Ok start ->
  (_tick_event env now event w).2 = Ok tt.
Proof.
  intros Hnow Hstart. unfold _tick_event. rewrite bind_unfold. unfold lift.
  rewrite Hstart. apply for_each_ok.
  intros [[k trigger] tpl] w0 Hin. apply tick_reminder_ok; [done|].
  apply aware_start_aware in Hstart. unfold reminders in Hin.
  rewrite !elem_of_cons in Hin.
  destruct Hin as [[= -> -> ->]|[[= -> -> ->]|Hin]]; [done..|].
  by apply elem_of_nil in Hin.
Qed.

(** Once [t] is past a transition, the wall clock reading at [t] is
    past the place of that transition on the wall clock. *)
Lemma fromutc_passed cur f0 at1 new1 rest t :
  well_ordered cur ((at1, new1) :: rest) = true ->
  at1 <= t ->
  let r := fromutc cur f0 ((at1, new1) :: rest) t in
  at1 + (if r.2 then Z.min cur new1 else Z.max cur new1) <= t + r.1.
Proof.
  revert cur f0 at1 new1.
  induction rest as [|[at2 new2] rest IH]; intros cur f0 at1 new1 Hwf Hle.
  - cbn. rewrite (proj2 (Z.ltb_ge _ _)) by lia. cbn.
    destruct (Z.ltb_spec (t - at1) (cur - new1)); lia.
  - cbn [fromutc]. rewrite (proj2 (Z.ltb_ge t at1)) by lia.
    cbn [well_ordered] in Hwf. apply andb_prop in Hwf as [H12 Hwf].
    apply Z.leb_le in H12.
    destruct (Z.ltb_spec t at2) as [Hlt|Hge].
    + cbn. destruct (Z.ltb_spec (t - at1) (cur - new1)); lia.
    + specialize (IH new1 (t - at1 <? cur - new1) at2 new2 Hwf Hge).
      cbn [fromutc] in IH. rewrite (proj2 (Z.ltb_ge t at2)) in IH by lia.
      cbv zeta in *.
      destruct (fromutc new2 _ rest t) as [off f]. cbn [fst snd] in *.
      destruct f; lia.
Qed.

(** In a well ordered table the reading [fromutc] produces is read back
    by [_find_trans] with the offset it was produced with. *)
Lemma find_trans_fromutc cur f0 trans t :
  well_ordered cur trans = true ->
  (f0 = true -> match trans with
                | [] => True
                | (at1, new1) :: _ => t + cur < at1 + Z.min cur new1
                end) ->
  let r := fromutc cur f0 trans t in
  _find_trans r.2 cur trans (t + r.1) = r.1.
Proof.
  revert cur f0. induction trans as [|[at1 new1] rest IH]; intros cur f0 Hwf Hpre;
    [reflexivity|].
  cbv zeta. destruct (Z.ltb_spec t at1) as [Hlt|Hge].
  - cbn [fromutc]. rewrite (proj2 (Z.ltb_lt t at1)) by lia. cbn [fst snd _find_trans].
    destruct f0.
    + specialize (Hpre eq_refl). by rewrite (proj2 (Z.ltb_lt _ _)) by lia.
    + by rewrite (proj2 (Z.ltb_lt _ _)) by lia.
  - pose proof (fromutc_passed cur f0 at1 new1 rest t Hwf Hge) as Hpass.
    cbv zeta in Hpass.
    cbn [fromutc] in *. rewrite (proj2 (Z.ltb_ge t at1)) in * by lia.
    cbn [well_ordered] in Hwf. apply andb_prop in Hwf as [H12 Hwf].
    specialize (IH new1 (t - at1 <? cur - new1) Hwf). cbv zeta in IH.
    destruct (fromutc new1 _ rest t) as [off f] eqn:Hr. cbn [fst snd] in *.
    cbn [_find_trans]. rewrite (proj2 (Z.ltb_ge _ _)) by lia.
    apply IH. intros Hf. apply Z.ltb_lt in Hf.
    destruct rest as [|[at2 new2] rest]; [done|].
    apply Z.leb_le in H12. lia.
Qed.

Lemma ZoneInfo_Ok key zone :
  ZoneInfo env key = Ok zone ->
  exists table, zone = tz_zone key table /\
                well_ordered (initial_offset table) (transitions table) = true.
Proof.
  unfold ZoneInfo. destruct (zoneinfo env key) as [table| |]; [|discriminate..].
  destruct (well_ordered _ _) eqn:Hwf; [|discriminate].
  intros [= <-]. by exists table.
Qed.

Lemma datetime_now_aware clock now :
  datetime_now env clock = Ok now -> is_Some (tzinfo now).
Proof.
  unfold datetime_now. destruct (ZoneInfo env _) as [zone|e]; [|discriminate].
  intros [= <-]. unfold now_in. destruct zone as [off|key table]; [by eexists|].
  destruct (fromutc _ _ _ _). by eexists.
Qed.

(** What [datetime.now] reads is the system clock's instant, also inside
    a repeated hour. *)
Lemma datetime_now_instant clock now :
  datetime_now env clock = Ok now -> instant now = Some clock.
Proof.
  unfold datetime_now. destruct (ZoneInfo env _) as [zone|e] eqn:Hzone; [|discriminate].
  apply ZoneInfo_Ok in Hzone as (table & -> & Hwf).
  intros [= <-]. unfold now_in.
  pose proof (find_trans_fromutc (initial_offset table) false (transitions table) clock Hwf
                ltac:(discriminate)) as Hback.
  cbv zeta in Hback.
  destruct (fromutc _ _ _ _) as [off f]. cbn [fst snd] in Hback.
  unfold instant, utcoffset. cbn [tzinfo wall fold]. rewrite Hback. f_equal. lia.
Qed.

Lemma instant_is_aware d t : instant d = Some t -> is_Some (tzinfo d).
Proof.
  unfold instant, utcoffset. destruct (tzinfo d); [by eexists | discriminate].
Qed.

Lemma fixed_instant_instant d T : fixed_instant d = Some T -> instant d = Some T.
Proof.
  unfold fixed_instant, instant, utcoffset.
  destruct (tzinfo d) as [[off|key table]|]; [done | discriminate..].
Qed.

(** A value with a fixed offset shares its [tzinfo] object with no
    value the engine compares it with. *)
Lemma same_tzinfo_fixed_r a b T : fixed_instant b = Some T -> same_tzinfo a b = false.
Proof.
  unfold fixed_instant, same_tzinfo.
  destruct (tzinfo b) as [[off|key table]|]; [|discriminate..].
  by destruct (tzinfo a) as [[?|? ?]|].
Qed.

Lemma same_tzinfo_fixed_l a b T : fixed_instant a = Some T -> same_tzinfo a b = false.
Proof.
  unfold fixed_instant, same_tzinfo.
  by destruct (tzinfo a) as [[off|key table]|]; [|discriminate..].
Qed.

Lemma fixed_instant_minus d T delta :
  fixed_instant d = Some T -> fixed_instant (minus d delta) = Some (T - delta).
Proof.
  unfold fixed_instant, minus. cbn [tzinfo wall].
  destruct (tzinfo d) as [[off|key table]|]; [|discriminate..].
  intros [= <-]. f_equal. lia.
Qed.

(** Two aware values that do not share their [tzinfo] object compare by
    instant. *)
Lemma dt_ge_instants a b ta tb :
  same_tzinfo a b = false -> instant a = Some ta -> instant b = Some tb ->
  dt_ge a b = Ok (tb <=? ta).
Proof.
  unfold dt_ge, instant. intros -> Ha Hb.
  destruct (utcoffset a) as [oa|]; [|discriminate].
  destruct (utcoffset b) as [ob|]; [|discriminate].
  by injection Ha as <-; injection Hb as <-.
Qed.

Lemma dt_lt_instants a b ta tb :
  same_tzinfo a b = false -> instant a = Some ta -> instant b = Some tb ->
  dt_lt a b = Ok (ta <? tb).
Proof.
  unfold dt_lt, instant. intros -> Ha Hb.
  destruct (utcoffset a) as [oa|]; [|discriminate].
  destruct (utcoffset b) as [ob|]; [|discriminate].
  by injection Ha as <-; injection Hb as <-.
Qed.

(** [now >= start - delta] for a start with a fixed offset, in terms of
    instants. *)
Lemma dt_ge_minus now start c T delta :
  instant now = Some c -> fixed_instant start = Some T ->
  dt_ge now (minus start delta) = Ok (T - delta <=? c).
Proof.
  intros Hc HT. apply (fixed_instant_minus _ _ delta) in HT.
  apply dt_ge_instants; [by eapply same_tzinfo_fixed_r | done | by apply fixed_instant_instant].
Qed.

(** [end < now - delta] for an end with a fixed offset, [h] being the
    instant of [now - delta]. *)
Lemma dt_lt_minus now finish h T delta :
  instant (minus now delta) = Some h -> fixed_instant finish = Some T ->
  dt_lt finish (minus now delta) = Ok (T <? h).
Proof.
  intros Hh HT.
  apply dt_lt_instants; [by eapply same_tzinfo_fixed_l | by apply fixed_instant_instant | done].
Qed.


(** A property of worlds that every step of a loop keeps, the loop keeps. *)
Lemma for_each_preserves {A} (R : World -> World -> Prop) (l : list A) (f : A -> M unit) w :
  (forall w0, R w0 w0) ->
  (forall w0 w1 w2, R w0 w1 -> R w1 w2 -> R w0 w2) ->
  (forall x w0, x ∈ l -> R w0 (f x w0).1) ->
  R w (for_each l f w).1.
Proof.
  intros Hrefl Htrans. revert w. induction l as [|x l IH]; intros w Hf; [apply Hrefl|].
  rewrite for_each_cons. pose proof (Hf x w ltac:(left)) as Hx.
  destruct (f x w) as [w1 [[]|e]]; simpl in Hx; [|exact Hx].
  eapply Htrans; [exact Hx|]. apply IH. intros y w0 Hy. apply Hf. by right.
Qed.

Lemma sms_bodies_app tr1 tr2 : sms_bodies (tr1 ++ tr2) = sms_bodies tr1 ++ sms_bodies tr2.
Proof. apply omap_app. Qed.

Lemma sms_bodies_send body ok tr : sms_bodies (SmsSend body ok :: tr) = body :: sms_bodies tr.
Proof. reflexivity. Qed.

Lemma clear_event_sms E w :
  sms_calls (clear_event env E w).1 = sms_calls w /\
  sms_bodies (trace (clear_event env E w).1) = sms_bodies (trace w).
Proof.
  split.
  - rewrite clear_event_unfold. cbv zeta.
    destruct (st_state w !! E); [|done].
    unfold _persist. simpl. by destruct (io_at env (persist_calls w)).
  - rewrite clear_event_trace. unfold sms_bodies. rewrite omap_app. simpl.
    by rewrite app_nil_r.
Qed.

(** The clean-up loop sends nothing. *)
Lemma tick_cleanup_sms now l w :
  sms_calls (_tick_cleanup env now l w).1 = sms_calls w /\
  sms_bodies (trace (_tick_cleanup env now l w).1) = sms_bodies (trace w).
Proof.
  unfold _tick_cleanup.
  apply (for_each_preserves
           (fun w0 w1 => sms_calls w1 = sms_calls w0 /\
                         sms_bodies (trace w1) = sms_bodies (trace w0))).
  - done.
  - intros w0 w1 w2 [H1 H2] [H3 H4]. split; congruence.
  - intros event w0 _. rewrite bind_unfold. unfold lift.
    destruct (dt_lt _ _) as [[|]|e]; [apply clear_event_sms | done | done].
Qed.

Lemma tick_cleanup_cons now event l w :
  _tick_cleanup env now (event :: l) w =
  match dt_lt (EventResponse.end_time event) (minus now (hours 1)) with
  | Ok true =>
      match clear_event env (EventResponse.id event) w with
      | (w', Ok _) => _tick_cleanup env now l w'
      | (w', Raise e) => (w', Raise e)
      end
  | Ok false => _tick_cleanup env now l w
  | Raise e => (w, Raise e)
  end.
Proof.
  unfold _tick_cleanup. rewrite for_each_cons, bind_unfold. unfold lift.
  by destruct (dt_lt _ _) as [[|]|e].
Qed.

Lemma tick_cleanup_app now l1 l2 w :
  _tick_cleanup env now (l1 ++ l2) w =
  match _tick_cleanup env now l1 w with
  | (w', Ok _) => _tick_cleanup env now l2 w'
  | (w', Raise e) => (w', Raise e)
  end.
Proof. unfold _tick_cleanup. apply for_each_app. Qed.

(** [clear_event] of an id without a record: nothing but the call. *)
Lemma clear_event_absent E w :
  st_state w !! E = None ->
  (clear_event env E w).2 = Ok tt /\
  st_state (clear_event env E w).1 = st_state w /\
  st_file (clear_event env E w).1 = st_file w /\
  persist_calls (clear_event env E w).1 = persist_calls w.
Proof. intros Hnone. rewrite clear_event_unfold, Hnone. done. Qed.

(** [clear_event] when its write, if any, succeeds. *)
Lemma clear_event_written E w :
  io_at env (persist_calls w) = IoOk ->
  (clear_event env E w).2 = Ok tt /\
  st_state (clear_event env E w).1 = delete E (st_state w) /\
  (persist_calls w <= persist_calls (clear_event env E w).1)%nat.
Proof.
  intros Hio. rewrite clear_event_unfold. cbv zeta.
  destruct (st_state w !! E) as [r|] eqn:Hr.
  - unfold _persist. cbn [persist_calls st_state]. rewrite Hio. cbn.
    split; [done|]. split; [done|]. lia.
  - cbn. split; [done|]. split; [|lia]. symmetry. by apply delete_id.
Qed.

(** When its writes succeed, the clean-up loop leaves the file holding
    the final mapping, unless it removed nothing. *)
Lemma tick_cleanup_file now events w :
  (forall n, (persist_calls w <= n)%nat -> io_at env n = IoOk) ->
  let r := _tick_cleanup env now events w in
  (st_file r.1 = st_file w /\ st_state r.1 = st_state w) \/
  st_file r.1 = Snapshot (st_state r.1).
Proof.
  cbv zeta. revert w. induction events as [|event l IH]; intros w Hio; [by left|].
  rewrite tick_cleanup_cons.
  destruct (dt_lt (EventResponse.end_time event) (minus now (hours 1))) as [[|]|exc];
    [|by apply IH | by left].
  rewrite clear_event_unfold. cbv zeta.
  destruct (st_state w !! EventResponse.id event) as [r|].
  - unfold _persist. cbn [persist_calls st_state st_file sms_calls trace].
    rewrite (Hio (persist_calls w)) by lia.
    match goal with |- context [_tick_cleanup env now l ?w1] => set (w' := w1) end.
    destruct (IH w') as [[Hf Hs]|Hf].
    { intros n Hn. apply Hio. subst w'. cbn [persist_calls] in Hn. lia. }
    + right. rewrite Hf, Hs. reflexivity.
    + by right.
  - match goal with |- context [_tick_cleanup env now l ?w1] => set (w' := w1) end.
    destruct (IH w') as [[Hf Hs]|Hf]; [exact Hio | by left | by right].
Qed.

(** The instant of [now - timedelta(hours=1)] when the zone of [now]
    has the same UTC offset at both readings. *)
Lemma steady_horizon now clock :
  instant now = Some clock ->
  utcoffset (minus now (hours 1)) = utcoffset now ->
  instant (minus now (hours 1)) = Some (clock - hours 1).
Proof.
  unfold instant. intros Hc ->. destruct (utcoffset now) as [off|]; [|discriminate].
  injection Hc as <-. cbn [minus wall]. f_equal. lia.
Qed.

(** A failing write of the clean-up ends the loop at that event. *)
Lemma tick_cleanup_write_fails now reached event rest w :
  let w0 := _tick_cleanup env now reached w in
  w0.2 = Ok tt ->
  ended_before now event = true ->
  is_Some (st_state w0.1 !! EventResponse.id event) ->
  io_at env (persist_calls w0.1) ≠ IoOk ->
  let r := _tick_cleanup env now (reached ++ event :: rest) w in
  r.2 = Raise OSError /\
  trace r.1 = trace w0.1 ++ [ClearEvent (EventResponse.id event)] /\
  st_state r.1 = delete (EventResponse.id event) (st_state w0.1).
Proof.
  cbv zeta. intros Hok Hended [rec Hrec] Hio.
  rewrite tick_cleanup_app.
  destruct (_tick_cleanup env now reached w) as [w0 [[]|exc]]; [|discriminate Hok].
  cbn [fst snd] in *. rewrite tick_cleanup_cons.
  unfold ended_before in Hended.
  destruct (dt_lt (EventResponse.end_time event) (minus now (hours 1))) as [[|]|exc];
    [|discriminate..].
  pose proof (clear_event_state (EventResponse.id event) w0) as Hst.
  pose proof (clear_event_trace (EventResponse.id event) w0) as Htr.
  assert ((clear_event env (EventResponse.id event) w0).2 = Raise OSError) as Hr.
  { rewrite clear_event_unfold, Hrec. cbv zeta. rewrite persist_result.
    cbn [persist_calls]. by destruct (io_at env (persist_calls w0)). }
  destruct (clear_event env (EventResponse.id event) w0) as [w1 r1].
  cbn [fst snd] in *. subst r1. done.
Qed.



Lemma ended_before_instant now h t event :
  instant (minus now (hours 1)) = Some h ->
  fixed_instant (EventResponse.end_time event) = Some t ->
  ended_before now event = true <-> t < h.
Proof.
  intros Hh Ht. unfold ended_before.
  rewrite (dt_lt_minus now _ h t) by done. apply Z.ltb_lt.
Qed.

(** The clean-up loop, whatever the end times and the writes are: the
    loop reaches a first stretch of the list, calls [clear_event] for
    the ended events of that stretch, in order, and their records are
    gone; it returns normally only when it reached the whole list. *)
Lemma tick_cleanup_reached now events w :
  let r := _tick_cleanup env now events w in
  exists reached rest,
    events = reached ++ rest /\
    trace r.1 = trace w ++ ((fun e => ClearEvent (EventResponse.id e)) <$>
                              filter (fun e => ended_before now e) reached) /\
    (forall E, st_state r.1 !! E =
               if bool_decide (E ∈ EventResponse.id <$>
                                     filter (fun e => ended_before now e) reached)
               then None else st_state w !! E) /\
    (r.2 = Ok tt -> rest = []).
Proof.
  cbv zeta. revert w. induction events as [|event l IH]; intros w.
  - exists [], []. split; [done|]. split; [by rewrite app_nil_r|]. split; [|done].
    intros E. rewrite bool_decide_eq_false_2; [done|]. apply not_elem_of_nil.
  - rewrite tick_cleanup_cons.
    destruct (dt_lt (EventResponse.end_time event) (minus now (hours 1))) as [[|]|exc] eqn:Hb.
    + pose proof (clear_event_state (EventResponse.id event) w) as Hst.
      pose proof (clear_event_trace (EventResponse.id event) w) as Htr.
      assert (ended_before now event = true) as Hended by (unfold ended_before; by rewrite Hb).
      destruct (clear_event env (EventResponse.id event) w) as [w1 [[]|exc]];
        cbn [fst snd] in Hst, Htr.
      * destruct (IH w1) as (reached & rest & -> & Htr' & Hst' & Hr').
        exists (event :: reached), rest. split; [done|].
        rewrite filter_cons_True by (by rewrite Hended). split; [|split; [|done]].
        -- rewrite Htr', Htr, fmap_cons, <- app_assoc. reflexivity.
        -- intros E. rewrite Hst', Hst, fmap_cons.
           destruct (decide (E = EventResponse.id event)) as [->|Hne].
           ++ rewrite lookup_delete_eq.
              rewrite (bool_decide_eq_true_2 (_ ∈ _ :: _)) by left.
              by destruct (bool_decide _).
           ++ rewrite lookup_delete_ne by done.
              apply (f_equal (fun b : bool => if b then None else st_state w !! E)).
              apply bool_decide_ext. rewrite elem_of_cons.
              split; [by right | by intros [?|?]].
      * exists [event], l. split; [done|].
        rewrite filter_cons_True by (by rewrite Hended). cbn [fst snd filter list_filter fmap list_fmap].
        split; [exact Htr|]. split; [|discriminate].
        intros E. rewrite Hst. destruct (decide (E = EventResponse.id event)) as [->|Hne].
        -- rewrite lookup_delete_eq. by rewrite bool_decide_eq_true_2 by left.
        -- rewrite lookup_delete_ne by done. rewrite bool_decide_eq_false_2; [done|].
           intros Hin. apply list_elem_of_singleton in Hin. done.
    + destruct (IH w) as (reached & rest & -> & Htr' & Hst' & Hr').
      exists (event :: reached), rest. split; [done|].
      by rewrite filter_cons_False by (unfold ended_before; rewrite Hb; exact id).
    + exists [], (event :: l). split; [done|]. cbn [fst snd].
      split; [by rewrite app_nil_r|]. split; [|discriminate].
      intros E. rewrite bool_decide_eq_false_2; [done|]. apply not_elem_of_nil.
Qed.

(** The clean-up loop over events with aware end times, when the writes
    it makes succeed: [clear_event] is called for the ended events, in
    list order and for no other, and their records are gone. *)
Lemma tick_cleanup_spec now events w :
  is_Some (tzinfo now) ->
  Forall (fun e => is_Some (tzinfo (EventResponse.end_time e))) events ->
  (forall n, (persist_calls w <= n)%nat -> io_at env n = IoOk) ->
  let r := _tick_cleanup env now events w in
  let ended := filter (fun e => ended_before now e) events in
  r.2 = Ok tt /\
  trace r.1 = trace w ++ ((fun e => ClearEvent (EventResponse.id e)) <$> ended) /\
  (forall E, st_state r.1 !! E =
             if bool_decide (E ∈ EventResponse.id <$> ended) then None else st_state w !! E).
Proof.
  intros Hnow Hends. revert w. induction Hends as [|event l Hend _ IH]; intros w Hio; cbv zeta.
  - split; [done|]. split; [by rewrite app_nil_r|]. intros E.
    rewrite bool_decide_eq_false_2; [done|]. apply not_elem_of_nil.
  - rewrite tick_cleanup_cons.
    destruct (dt_lt_aware (EventResponse.end_time event) (minus now (hours 1)) Hend Hnow)
      as [b Hb].
    rewrite Hb. destruct b.
    + destruct (clear_event_written (EventResponse.id event) w) as (Hr & Hst & Hp);
        [apply Hio; lia|].
      pose proof (clear_event_trace (EventResponse.id event) w) as Htr.
      destruct (clear_event env (EventResponse.id event) w) as [w1 r1].
      cbn [fst snd] in *. subst r1.
      destruct (IH w1) as (Hr' & Htr' & Hst'); [intros n Hn; apply Hio; lia|].
      rewrite filter_cons_True by (unfold ended_before; by rewrite Hb).
      split; [exact Hr'|]. split.
      * rewrite Htr', Htr, fmap_cons, <- app_assoc. reflexivity.
      * intros E. rewrite Hst', Hst, fmap_cons.
        destruct (decide (E = EventResponse.id event)) as [->|Hne].
        -- rewrite lookup_delete_eq.
           rewrite (bool_decide_eq_true_2 (_ ∈ _ :: _)) by left.
           by destruct (bool_decide _).
        -- rewrite lookup_delete_ne by done.
           apply (f_equal (fun b : bool => if b then None else st_state w !! E)).
           apply bool_decide_ext. rewrite elem_of_cons.
           split; [by right | by intros [?|?]].
    + rewrite filter_cons_False by (unfold ended_before; rewrite Hb; exact id).
      apply IH. exact Hio.
Qed.

End EngineFacts.

(** C6.  When the fetch of the event list raises, the tick returns
    normally after logging: no SMS call is made, nothing is written, and
    the in-memory mapping and the file are what they were. *)
Theorem tick_fetch_failure env clock exc w :
  let w' := (_tick env (Raise exc) clock w).1 in
  (_tick env (Raise exc) clock w).2 = Ok tt /\
  sms_calls w' = sms_calls w /\
  sms_bodies (trace w') = sms_bodies (trace w) /\
  persist_calls w' = persist_calls w /\
  st_file w' = st_file w /\
  st_state w' = st_state w /\
  trace w' = trace w ++ [LogException "Unable to fetch events for reminders" exc].
Proof.
  simpl. repeat split.
  unfold sms_bodies. rewrite omap_app. simpl. by rewrite app_nil_r.
Qed.







(** C8, as the specification states it, fails when a write of the
    clean-up fails: two fetched events that ended two hours ago, both
    with a record; the write of the first [clear_event] cannot open the
    file, [OSError] leaves the loop and the tick, and [clear_event] is
    never called for the second event. *)
Lemma failed_cleanup_write_ends_the_loop : ~ ended_events_all_cleared.
Proof.
  intros Hspec.
  set (done_ := {| sent := ["10m"; "2h"]; last_updated := "2026-01-05T09:00:00+00:00" |}).
  pose proof (Hspec (env_of (fun _ => IoOpenFails) (fun _ _ => true))
    [event_at "evt-0" "Retro" (utc (hours 7)) (utc (hours 8)) "UTC";
     event_at "evt-1" "Review" (utc (hours 7)) (utc (hours 8)) "UTC"]
    (hours 10) (at_utc (hours 10))
    (world_of (<["evt-0" := done_]> (<["evt-1" := done_]> ∅)))
    eq_refl eq_refl) as H.
  specialize (H ltac:(repeat constructor; by eexists)).
  vm_compute in H. discriminate H.
Qed.

(** C8, amended.  In a tick whose reminder pass completes, the clean-up
    loop walks the fetched events in list order and calls [clear_event]
    for those whose end time is before [now - timedelta(hours=1)] as
    line 78 compares them; the record of each is removed from the
    mapping.  The loop has no exception handling: it returns normally
    only when it reached every event, which it does when the end times
    are aware and its writes succeed, the file then holding the final
    mapping unless nothing was removed; a [clear_event] whose write fails
    ends the tick with [OSError] at that event, the events after it
    getting no call.  For an end time with a fixed UTC offset, when the
    configured zone has the same UTC offset at [now] and one hour earlier
    on its wall clock, the events cleared are those that ended more than
    one hour before now.  [clear_event] of an id without a record returns
    normally and changes neither the mapping nor the file. *)
Theorem tick_clears_ended_events env events clock now w :
  datetime_now env clock = Ok now ->
  (for_each events (_tick_event env now) w).2 = Ok tt ->
  let w_r := (for_each events (_tick_event env now) w).1 in
  let res := _tick env (Ok events) clock w in
  let calls l := (fun e => ClearEvent (EventResponse.id e)) <$>
                   filter (fun e => ended_before now e) l in
  let cleared l := EventResponse.id <$> filter (fun e => ended_before now e) l in
  (exists reached rest,
     events = reached ++ rest /\
     trace res.1 = trace w_r ++ calls reached /\
     (forall E, st_state res.1 !! E =
                if bool_decide (E ∈ cleared reached) then None else st_state w_r !! E) /\
     (res.2 = Ok tt -> rest = [])) /\
  (Forall (fun e => is_Some (tzinfo (EventResponse.end_time e))) events ->
   (forall n, (persist_calls w_r <= n)%nat -> io_at env n = IoOk) ->
   res.2 = Ok tt /\
   trace res.1 = trace w_r ++ calls events /\
   (forall E, st_state res.1 !! E =
              if bool_decide (E ∈ cleared events) then None else st_state w_r !! E) /\
   ((st_file res.1 = st_file w_r /\ st_state res.1 = st_state w_r) \/
    st_file res.1 = Snapshot (st_state res.1))) /\
  (forall reached e rest,
     events = reached ++ e :: rest ->
     let w0 := _tick_cleanup env now reached w_r in
     w0.2 = Ok tt ->
     ended_before now e = true ->
     is_Some (st_state w0.1 !! EventResponse.id e) ->
     io_at env (persist_calls w0.1) ≠ IoOk ->
     res.2 = Raise OSError /\
     trace res.1 = trace w0.1 ++ [ClearEvent (EventResponse.id e)]) /\
  (utcoffset (minus now (hours 1)) = utcoffset now ->
   forall e t, fixed_instant (EventResponse.end_time e) = Some t ->
               ended_before now e = true <-> t < clock - hours 1) /\
  (forall E w0, st_state w0 !! E = None ->
                (clear_event env E w0).2 = Ok tt /\
                st_state (clear_event env E w0).1 = st_state w0 /\
                st_file (clear_event env E w0).1 = st_file w0 /\
                persist_calls (clear_event env E w0).1 = persist_calls w0).
Proof.
  intros Hnow Hpass. cbv zeta.
  pose proof (datetime_now_instant env clock now Hnow) as Hinst.
  pose proof (datetime_now_aware env clock now Hnow) as Haware.
  assert (_tick env (Ok events) clock w =
          _tick_cleanup env now events (for_each events (_tick_event env now) w).1) as ->.
  { unfold _tick. rewrite bind_unfold. unfold lift. rewrite Hnow. cbv beta iota.
    rewrite bind_unfold.
    by destruct (for_each events (_tick_event env now) w) as [w_r [[]|e]]. }
  set (w_r := (for_each events (_tick_event env now) w).1).
  split; [apply tick_cleanup_reached|]. split; [|split; [|split]].
  - intros Hends Hio.
    destruct (tick_cleanup_spec env now events w_r Haware Hends Hio) as (Hr & Htr & Hst).
    split; [exact Hr|]. split; [exact Htr|]. split; [exact Hst|].
    by apply tick_cleanup_file.
  - intros reached e rest -> Hok Hended Hrec Hio.
    destruct (tick_cleanup_write_fails env now reached e rest w_r Hok Hended Hrec Hio)
      as (Hr & Htr & _).
    by split.
  - intros Hsteady e t Ht. apply ended_before_instant; [|done].
    by apply steady_horizon.
  - intros E w0 Hnone. by apply clear_event_absent.
Qed.

Lemma tick_clears_ended_events_witness :
  let over := event_at "evt-0" "Retro" (utc (hours 7)) (utc (hours 8)) "UTC" in
  let ahead := event_at "evt-1" "Standup" (utc (hours 20)) (utc (hours 21)) "UTC" in
  let m : gmap string ReminderRecord :=
    <["evt-0" := {| sent := ["10m"; "2h"]; last_updated := "2026-01-05T09:00:00+00:00" |}]> ∅ in
  let res := _tick env_ok (Ok [over; ahead]) (hours 10) (world_of m) in
  res.2 = Ok tt /\
  trace res.1 = [ClearEvent "evt-0"] /\
  st_state res.1 !! "evt-0" = None /\
  st_file res.1 = Snapshot (st_state res.1) /\
  (ended_before (at_utc (hours 10)) over = true <-> hours 8 < hours 10 - hours 1).
Proof.
  intros over ahead m res.
  destruct (tick_clears_ended_events env_ok [over; ahead] (hours 10) (at_utc (hours 10))
              (world_of m)) as (_ & Hdone & _ & Hinst & _); [reflexivity..|].
  destruct Hdone as (Hr & Htr & Hst & Hfile).
  - repeat constructor; by eexists.
  - intros n _. reflexivity.
  - split; [exact Hr|]. split; [exact Htr|]. split; [exact (Hst "evt-0")|]. split.
    + destruct Hfile as [[Hf _]|Hf]; [|exact Hf]. vm_compute in Hf. discriminate Hf.
    + apply Hinst; reflexivity.
Defined.

(** * Further properties of the store and of the engine *)

(** ** The store, observed through [has_sent] *)

#[global] Instance str_le_total : Total str_le.
Proof. intros a b. apply String.leb_total. Qed.

Lemma sort_Sorted (l : list string) : Sorted str_le (sort l).
Proof. apply Sorted_merge_sort. apply _. Qed.

Lemma has_sent_true (st : gmap string ReminderRecord) E K V :
  has_sent st E K V = true <->
  exists r, st !! E = Some r /\ last_updated r = V /\ K ∈ sent r.
Proof.
  unfold has_sent. destruct (st !! E) as [r|]; [|split; [done | by intros (r & ? & _)]].
  destruct (decide (last_updated r = V)) as [Heq|Hne].
  - rewrite (bool_decide_eq_false_2 (last_updated r ≠ V)) by (intros H; by apply H).
    rewrite bool_decide_eq_true. split.
    + intros Hin. by exists r.
    + by intros (r' & [= <-] & _ & Hin).
  - rewrite (bool_decide_eq_true_2 (last_updated r ≠ V)) by done. split; [done|].
    by intros (r' & [= <-] & Heq & _).
Qed.

Lemma elem_of_marked (st : gmap string ReminderRecord) E K V K' :
  K' ∈ sent (marked st E K V) <->
  K' = K \/ exists r, st !! E = Some r /\ last_updated r = V /\ K' ∈ sent r.
Proof.
  unfold marked.
  set (r0 := match st !! E with Some r => r | None => _ end).
  set (r1 := if bool_decide (last_updated r0 ≠ V) then _ else r0).
  assert (K' ∈ sent r1 <-> exists r, st !! E = Some r /\ last_updated r = V /\ K' ∈ sent r)
    as Hr1.
  { subst r1 r0. destruct (st !! E) as [r|] eqn:Hr.
    - destruct (decide (last_updated r = V)) as [Heq|Hne].
      + rewrite bool_decide_eq_false_2 by (intros H; by apply H). split.
        * intros Hin. by exists r.
        * by intros (r' & [= <-] & _ & Hin).
      + rewrite bool_decide_eq_true_2 by done. simpl. split.
        * intros Hin. by apply elem_of_nil in Hin.
        * by intros (r' & [= <-] & Heq & _).
    - simpl. rewrite bool_decide_eq_false_2 by (intros H; by apply H). simpl. split.
      + intros Hin. by apply elem_of_nil in Hin.
      + by intros (r' & ? & _). }
  destruct (bool_decide_reflect (K ∈ sent r1)) as [Hin|Hnin].
  - rewrite Hr1. split; [by right|]. intros [->|H]; [by apply Hr1 | done].
  - simpl. rewrite sort_elem_of, elem_of_app, list_elem_of_singleton, Hr1. tauto.
Qed.

Lemma has_sent_insert_marked (st : gmap string ReminderRecord) E K V E' K' V' :
  has_sent (<[E := marked st E K V]> st) E' K' V' =
  if bool_decide (E' = E) then
    if bool_decide (V' = V)
    then bool_decide (K' = K) || has_sent st E K' V
    else false
  else has_sent st E' K' V'.
Proof.
  destruct (bool_decide_reflect (E' = E)) as [->|HE].
  - destruct (bool_decide_reflect (V' = V)) as [->|HV].
    + apply eq_true_iff_eq. rewrite orb_true_iff, bool_decide_eq_true.
      rewrite !has_sent_true. rewrite lookup_insert_eq. split.
      * intros (r & [= <-] & _ & Hin). by apply elem_of_marked in Hin.
      * intros H. eexists. split; [done|]. split; [apply marked_last_updated|].
        by apply elem_of_marked.
    + unfold has_sent. rewrite lookup_insert_eq, marked_last_updated.
      by rewrite bool_decide_eq_true_2 by done.
  - unfold has_sent. by rewrite lookup_insert_ne by done.
Qed.

(** X1.  What [has_sent] answers after [mark_sent(E, K, V)], for every
    event id, kind and version: other events answer as before; for [E],
    under [V] the kind [K] is now sent and every other kind answers as
    before; under any other version nothing is sent. *)
Theorem has_sent_after_mark_sent env w E K V E' K' V' :
  has_sent (st_state (mark_sent env E K V w).1) E' K' V' =
  if bool_decide (E' = E) then
    if bool_decide (V' = V)
    then bool_decide (K' = K) || has_sent (st_state w) E K' V
    else false
  else has_sent (st_state w) E' K' V'.
Proof. rewrite mark_sent_state. apply has_sent_insert_marked. Qed.

Lemma marked_ordered (st : gmap string ReminderRecord) E K V :
  store_ordered st -> record_ordered (marked st E K V).
Proof.
  intros Hst. unfold marked.
  set (r0 := match st !! E with Some r => r | None => _ end).
  set (r1 := if bool_decide (last_updated r0 ≠ V) then _ else r0).
  assert (Sorted str_le (sent r1) /\ NoDup (sent r1)) as [Hs Hn].
  { subst r1 r0. destruct (bool_decide (_ ≠ V)); [split; [constructor | apply NoDup_nil_2]|].
    destruct (st !! E) as [r|] eqn:Hr.
    - destruct (Hst E r Hr) as (? & ? & _). done.
    - split; [constructor | apply NoDup_nil_2]. }
  destruct (bool_decide_reflect (K ∈ sent r1)) as [Hin|Hnin].
  - split; [done|]. split; [done|]. intros Hnil. rewrite Hnil in Hin.
    by apply elem_of_nil in Hin.
  - simpl. split; [apply sort_Sorted|]. split.
    + apply sort_NoDup. apply NoDup_app. split; [done|].
      split; [|apply NoDup_singleton].
      intros x Hx Hk. apply list_elem_of_singleton in Hk. by subst x.
    + intros Hnil. assert (K ∈ sort (sent r1 ++ [K])) as HK.
      { apply sort_elem_of, elem_of_app. right. by apply list_elem_of_singleton. }
      simpl in Hnil. rewrite Hnil in HK. by apply elem_of_nil in HK.
Qed.

Lemma store_ordered_insert_marked (st : gmap string ReminderRecord) E K V :
  store_ordered st -> store_ordered (<[E := marked st E K V]> st).
Proof.
  intros Hst E' r. destruct (decide (E' = E)) as [->|Hne].
  - rewrite lookup_insert_eq. intros [= <-]. by apply marked_ordered.
  - rewrite lookup_insert_ne by done. apply Hst.
Qed.

Lemma store_ordered_delete (st : gmap string ReminderRecord) E :
  store_ordered st -> store_ordered (delete E st).
Proof.
  intros Hst E' r Hr. apply lookup_delete_Some in Hr as [_ Hr]. by eapply Hst.
Qed.

(** ** What a tick can do to the mapping *)

Section TickInvariant.
Variable env : Env.
Variable P : gmap string ReminderRecord -> Prop.
Variable events : list EventResponse.t.

(** [P] survives a [mark_sent] of a known kind for a fetched event under
    its current key, and a [clear_event] of a fetched event. *)
Hypothesis P_marked : forall st e K,
  e ∈ events -> K ∈ ["2h"; "10m"] -> P st ->
  P (<[EventResponse.id e := marked st (EventResponse.id e) K (updated_key env e)]> st).
Hypothesis P_cleared : forall st e,
  e ∈ events -> P st -> P (delete (EventResponse.id e) st).

Lemma reminder_kind_known start k trigger (tpl : string -> string) :
  (k, trigger, tpl) ∈ reminders start -> k ∈ ["2h"; "10m"].
Proof.
  unfold reminders. rewrite !elem_of_cons.
  intros [[= -> _ _]|[[= -> _ _]|Hin]].
  - by left.
  - right. by left.
  - by apply elem_of_nil in Hin.
Qed.

Lemma tick_reminder_invariant now e start k trigger (tpl : string -> string) w :
  e ∈ events -> (k, trigger, tpl) ∈ reminders start ->
  P (st_state w) -> P (st_state (_tick_reminder env now e (k, trigger, tpl) w).1).
Proof.
  intros He Hk HP. rewrite tick_reminder_unfold.
  destruct (dt_ge now trigger) as [due|exc]; [|done].
  destruct (due && negb _); [|done].
  destruct (attempt_spec env (tpl (EventResponse.summary e)) (EventResponse.id e) k
              (updated_key env e) (failed_to_send e) w)
    as (_ & _ & [(_ & -> & _)|(_ & -> & _)]); [done|].
  apply P_marked; [done | by eapply reminder_kind_known | done].
Qed.

Lemma tick_event_invariant now e w :
  e ∈ events -> P (st_state w) -> P (st_state (_tick_event env now e w).1).
Proof.
  intros He. unfold _tick_event. rewrite bind_unfold. unfold lift.
  destruct (aware_start env e) as [start|exc]; [|done].
  apply (for_each_preserves (fun w0 w1 => P (st_state w0) -> P (st_state w1))).
  - done.
  - intros w0 w1 w2 H01 H12 H0. auto.
  - intros [[k trigger] tpl] w0 Hin. by eapply tick_reminder_invariant.
Qed.

Lemma reminder_pass_invariant now l w :
  l ⊆ events -> P (st_state w) ->
  P (st_state (for_each l (_tick_event env now) w).1).
Proof.
  intros Hl.
  apply (for_each_preserves (fun w0 w1 => P (st_state w0) -> P (st_state w1))).
  - done.
  - intros w0 w1 w2 H01 H12 H0. auto.
  - intros e w0 Hin. apply tick_event_invariant. by apply Hl.
Qed.

Lemma tick_cleanup_invariant now l w :
  l ⊆ events -> P (st_state w) -> P (st_state (_tick_cleanup env now l w).1).
Proof.
  intros Hl. unfold _tick_cleanup.
  apply (for_each_preserves (fun w0 w1 => P (st_state w0) -> P (st_state w1))).
  - done.
  - intros w0 w1 w2 H01 H12 H0. auto.
  - intros e w0 Hin HP. rewrite bind_unfold. unfold lift.
    destruct (dt_lt _ _) as [[|]|exc]; [|done..].
    rewrite clear_event_state. apply P_cleared; [by apply Hl | done].
Qed.

Lemma tick_invariant clock w :
  P (st_state w) -> P (st_state (_tick env (Ok events) clock w).1).
Proof.
  intros HP. unfold _tick. rewrite bind_unfold. unfold lift.
  destruct (datetime_now env clock) as [now|exc]; [|done].
  rewrite bind_unfold.
  pose proof (reminder_pass_invariant now events w ltac:(done) HP) as Hpass.
  destruct (for_each events (_tick_event env now) w) as [w1 [[]|exc]]; [|done].
  by apply tick_cleanup_invariant.
Qed.

End TickInvariant.

(** X2.  The store keeps every [sent] list in ascending order, free of
    duplicates and non-empty: this holds of the empty mapping and is
    kept by [mark_sent], by [clear_event] and by a whole tick, whatever
    the sends and the writes do. *)
Theorem sent_lists_stay_ordered env :
  store_ordered ∅ /\
  (forall w E K V,
     store_ordered (st_state w) -> store_ordered (st_state (mark_sent env E K V w).1)) /\
  (forall w E,
     store_ordered (st_state w) -> store_ordered (st_state (clear_event env E w).1)) /\
  (forall fetch clock w,
     store_ordered (st_state w) -> store_ordered (st_state (_tick env fetch clock w).1)).
Proof.
  split; [|split; [|split]].
  - intros E r Hr. by rewrite lookup_empty in Hr.
  - intros w E K V Hst. rewrite mark_sent_state. by apply store_ordered_insert_marked.
  - intros w E Hst. rewrite clear_event_state. by apply store_ordered_delete.
  - intros [events|exc] clock w Hst; [|done].
    apply (tick_invariant env store_ordered events); [| |done].
    + intros st e K _ _. apply store_ordered_insert_marked.
    + intros st e _. apply store_ordered_delete.
Qed.

Lemma sent_lists_stay_ordered_witness :
  let event := event_at "evt-1" "Standup" (utc (hours 10)) (utc (hours 11)) "UTC" in
  store_ordered (st_state (_tick env_ok (Ok [event]) (hours 10) fresh_world).1).
Proof.
  intros event.
  destruct (sent_lists_stay_ordered env_ok) as (Hempty & _ & _ & Htick).
  apply Htick. exact Hempty.
Defined.

(** X3.  A tick never touches the record of an event id that is not in
    the fetched list, and the kinds it records are "2h" and "10m" only. *)
Theorem tick_frame env events clock w :
  (forall E, E ∉ EventResponse.id <$> events ->
             st_state (_tick env (Ok events) clock w).1 !! E = st_state w !! E) /\
  (kinds_known (st_state w) ->
   kinds_known (st_state (_tick env (Ok events) clock w).1)).
Proof.
  split.
  - intros E HE.
    apply (tick_invariant env (fun st => st !! E = st_state w !! E) events); [| |done].
    + intros st e K He _ Hst. rewrite lookup_insert_ne; [done|].
      intros <-. apply HE. by apply list_elem_of_fmap_2.
    + intros st e He Hst. rewrite lookup_delete_ne; [done|].
      intros <-. apply HE. by apply list_elem_of_fmap_2.
  - apply (tick_invariant env kinds_known events).
    + intros st e K He HK Hst E r K'. destruct (decide (E = EventResponse.id e)) as [->|Hne].
      * rewrite lookup_insert_eq. intros [= <-] Hin.
        apply elem_of_marked in Hin as [->|(r' & Hr' & _ & Hin)]; [done|].
        by eapply Hst.
      * rewrite lookup_insert_ne by done. apply Hst.
    + intros st e He Hst E r K' Hr. apply lookup_delete_Some in Hr as [_ Hr].
      by eapply Hst.
Qed.

Lemma tick_frame_witness :
  let event := event_at "evt-1" "Standup" (utc (hours 10)) (utc (hours 11)) "UTC" in
  let m : gmap string ReminderRecord :=
    <["evt-9" := {| sent := ["2h"]; last_updated := "v1" |}]> ∅ in
  let w' := (_tick env_ok (Ok [event]) (hours 10) (world_of m)).1 in
  st_state w' !! "evt-9" = Some {| sent := ["2h"]; last_updated := "v1" |} /\
  kinds_known (st_state w').
Proof.
  intros event m w'.
  destruct (tick_frame env_ok [event] (hours 10) (world_of m)) as [Hframe Hkinds].
  split.
  - subst w'. rewrite Hframe; [reflexivity|].
    intros Hin. apply list_elem_of_singleton in Hin. discriminate Hin.
  - apply Hkinds. intros E r K Hr HK. subst m. cbn [world_of st_state] in Hr.
    destruct (decide (E = "evt-9")) as [->|Hne].
    + rewrite lookup_insert_eq in Hr. injection Hr as <-.
      apply list_elem_of_singleton in HK. subst K. by left.
    + rewrite lookup_insert_ne, lookup_empty in Hr by done. discriminate Hr.
Defined.

(** ** [clear_event] and a restart *)

Lemma mark_sent_file env w E K V :
  st_file (mark_sent env E K V w).1 =
  match io_at env (persist_calls w) with
  | IoOk => Snapshot (st_state (mark_sent env E K V w).1)
  | IoOpenFails => st_file w
  | IoWriteFails => Partial
  end.
Proof.
  rewrite mark_sent_unfold. unfold _persist. simpl.
  by destruct (io_at env (persist_calls w)).
Qed.

(** X4.  After [clear_event(E)], whatever its write did, [has_sent]
    is false for [E] under every kind and version and answers as before
    for every other event; a second [clear_event(E)] finds no record,
    makes no write and returns normally. *)
Theorem clear_event_forgets env w E :
  let w1 := (clear_event env E w).1 in
  let r2 := clear_event env E w1 in
  (forall K V, has_sent (st_state w1) E K V = false) /\
  (forall E' K V, E' ≠ E -> has_sent (st_state w1) E' K V = has_sent (st_state w) E' K V) /\
  r2.2 = Ok tt /\
  st_state r2.1 = st_state w1 /\ st_file r2.1 = st_file w1 /\
  persist_calls r2.1 = persist_calls w1.
Proof.
  cbv zeta.
  assert (st_state (clear_event env E w).1 !! E = None) as Hnone.
  { rewrite clear_event_state. apply lookup_delete_eq. }
  split; [|split].
  - intros K V. by apply has_sent_no_record.
  - intros E' K V Hne. unfold has_sent.
    by rewrite clear_event_state, lookup_delete_ne by done.
  - by apply clear_event_absent.
Qed.

Lemma clear_event_forgets_witness :
  let m : gmap string ReminderRecord :=
    <["evt-1" := {| sent := ["2h"]; last_updated := "v1" |}]>
      (<["evt-2" := {| sent := ["2h"]; last_updated := "v1" |}]> ∅) in
  let w1 := (clear_event (env_of (fun _ => IoWriteFails) (fun _ _ => true)) "evt-1"
               (world_of m)).1 in
  has_sent (st_state w1) "evt-1" "2h" "v1" = false /\
  has_sent (st_state w1) "evt-2" "2h" "v1" = true.
Proof.
  intros m w1.
  destruct (clear_event_forgets (env_of (fun _ => IoWriteFails) (fun _ _ => true))
              (world_of m) "evt-1") as (Hgone & Hframe & _).
  split; [apply Hgone|]. subst w1. rewrite Hframe by discriminate. reflexivity.
Defined.

Lemma init_unfold w :
  ReminderStateStore_init w =
  match st_file w with
  | Missing => ((set_state ∅ w).1, Ok tt)
  | Snapshot m => ((set_state m w).1, Ok tt)
  | Partial => ((set_state ∅ w).1, Raise JSONDecodeError)
  end.
Proof.
  unfold ReminderStateStore_init, bind, _load, set_state. simpl.
  by destruct (st_file w).
Qed.

(** X5.  What a store object built anew on the same file sees.  After a
    [mark_sent] whose write completed it loads exactly the mapping the
    running store has, so [has_sent] answers the same; after a
    [mark_sent] whose write could not open the file it loads the
    snapshot the file still holds, in which the kind just marked is
    recorded only if it already was. *)
Theorem restart_after_mark_sent env w E K V :
  let w1 := (mark_sent env E K V w).1 in
  (io_at env (persist_calls w) = IoOk ->
   (restarted w1).2 = Ok tt /\
   st_state (restarted w1).1 = st_state w1 /\
   has_sent (st_state (restarted w1).1) E K V = true) /\
  (forall m, io_at env (persist_calls w) = IoOpenFails ->
             st_file w = Snapshot m ->
             (restarted w1).2 = Ok tt /\
             st_state (restarted w1).1 = m /\
             has_sent (st_state (restarted w1).1) E K V = has_sent m E K V).
Proof.
  cbv zeta. unfold restarted. split.
  - intros Hio. rewrite init_unfold.
    assert (st_file (mark_sent env E K V w).1 = Snapshot (st_state (mark_sent env E K V w).1))
      as Hfile.
    { by rewrite mark_sent_file, Hio. }
    rewrite Hfile. cbn. split; [done|]. split; [done|]. apply has_sent_after_mark.
  - intros m Hio Hm. rewrite init_unfold.
    assert (st_file (mark_sent env E K V w).1 = Snapshot m) as Hfile.
    { by rewrite mark_sent_file, Hio. }
    rewrite Hfile. cbn. done.
Qed.

Lemma restart_after_mark_sent_witness :
  let w1 := (mark_sent env_ok "evt-1" "2h" "v1" fresh_world).1 in
  (restarted w1).2 = Ok tt /\
  has_sent (st_state (restarted w1).1) "evt-1" "2h" "v1" = true.
Proof.
  intros w1.
  destruct (restart_after_mark_sent env_ok fresh_world "evt-1" "2h" "v1") as [Hok _].
  destruct Hok as (Hr & _ & Hsent); [reflexivity|].
  split; [exact Hr | exact Hsent].
Defined.

(** ** Which reminders a tick sends *)

Section TickSends.
Variable env : Env.
Implicit Types (w : World) (event : EventResponse.t) (now : datetime).

(** A reminder that is not due, or already recorded, is passed over. *)
Lemma tick_reminder_skip now event k trigger (tpl : string -> string) w :
  dt_ge now trigger = Ok false \/
  (is_Some (tzinfo now) /\ is_Some (tzinfo trigger) /\
   has_sent (st_state w) (EventResponse.id event) k (updated_key env event) = true) ->
  _tick_reminder env now event (k, trigger, tpl) w = (w, Ok tt).
Proof.
  rewrite tick_reminder_unfold. intros [->|(Hnow & Htrig & ->)]; [reflexivity|].
  destruct (dt_ge_aware now trigger Hnow Htrig) as [due ->].
  by rewrite andb_false_r.
Qed.

Lemma tick_event_unfold now event start w :
  aware_start env event = Ok start ->
  _tick_event env now event w =
  match _tick_reminder env now event ("2h", minus start (hours 2), template_2h) w with
  | (w1, Ok _) =>
      match _tick_reminder env now event ("10m", minus start (minutes 10), template_10m) w1 with
      | (w2, Ok _) => (w2, Ok tt)
      | (w2, Raise e) => (w2, Raise e)
      end
  | (w1, Raise e) => (w1, Raise e)
  end.
Proof.
  intros Hstart. unfold _tick_event. rewrite bind_unfold. unfold lift.
  rewrite Hstart. unfold reminders. rewrite for_each_cons.
  destruct (_tick_reminder env now event _ w) as [w1 [[]|e]]; [|reflexivity].
  rewrite for_each_cons. by destruct (_tick_reminder env now event _ w1) as [w2 [[]|e]].
Qed.

(** The clean-up loop over events none of which line 78 finds ended
    does nothing. *)
Lemma tick_cleanup_none_ended now l w :
  Forall (fun e => dt_lt (EventResponse.end_time e) (minus now (hours 1)) = Ok false) l ->
  _tick_cleanup env now l w = (w, Ok tt).
Proof.
  intros Hl. unfold _tick_cleanup. apply for_each_skip. intros e He.
  rewrite Forall_forall in Hl. rewrite bind_unfold. unfold lift. by rewrite (Hl e He).
Qed.

(** A start with a fixed offset is taken as it is. *)
Lemma aware_start_fixed event T :
  fixed_instant (EventResponse.start_time event) = Some T ->
  aware_start env event = Ok (EventResponse.start_time event).
Proof.
  unfold fixed_instant, aware_start.
  by destruct (tzinfo (EventResponse.start_time event)) as [[off|key table]|].
Qed.

End TickSends.

(** X6.  Fetched events whose starts carry a fixed UTC offset, a tick
    earlier than two hours before the start of each of them, and no
    event that line 78 finds ended: the tick does nothing at all, no
    SMS, no write, no log entry, and returns the world as it was. *)
Theorem tick_nothing_due env events clock now w :
  datetime_now env clock = Ok now ->
  Forall (fun e =>
    (exists T, fixed_instant (EventResponse.start_time e) = Some T /\ clock < T - hours 2) /\
    dt_lt (EventResponse.end_time e) (minus now (hours 1)) = Ok false)
    events ->
  _tick env (Ok events) clock w = (w, Ok tt).
Proof.
  intros Hnow Hevents.
  pose proof (datetime_now_instant env clock now Hnow) as Hinst.
  unfold _tick. rewrite bind_unfold. unfold lift. rewrite Hnow. cbv beta iota.
  rewrite bind_unfold.
  rewrite (for_each_skip events (_tick_event env now) w).
  - apply (tick_cleanup_none_ended env now).
    eapply Forall_impl; [exact Hevents|]. by intros e [_ He].
  - intros e He. rewrite Forall_forall in Hevents.
    destruct (Hevents e He) as [(T & HT & Hlt) _].
    rewrite (tick_event_unfold env now e _ w (aware_start_fixed env e T HT)).
    rewrite tick_reminder_skip.
    + rewrite tick_reminder_skip; [reflexivity|]. left.
      rewrite (dt_ge_minus now _ clock T) by done. f_equal.
      apply Z.leb_gt. unfold hours, minutes in *. lia.
    + left. rewrite (dt_ge_minus now _ clock T) by done. f_equal.
      apply Z.leb_gt. lia.
Qed.

Lemma tick_nothing_due_witness :
  let event := event_at "evt-1" "Standup" (utc (hours 10)) (utc (hours 11)) "UTC" in
  _tick env_ok (Ok [event]) (hours 7) fresh_world = (fresh_world, Ok tt).
Proof.
  intros event.
  apply (tick_nothing_due env_ok [event] (hours 7) (at_utc (hours 7)) fresh_world).
  - reflexivity.
  - repeat constructor. exists (hours 10). split; reflexivity.
Defined.

Section NoRepeat.
Variable env : Env.
Hypothesis sms_always_ok : forall n body, sms_ok env n body = true.
Implicit Types (w : World) (event : EventResponse.t) (now : datetime).

(** With a working SMS service, a step of the reminder loop leaves its
    kind recorded if it is due, and keeps what was recorded for the
    event under its current key. *)
Lemma tick_reminder_records now event k trigger (tpl : string -> string) w :
  is_Some (tzinfo now) -> is_Some (tzinfo trigger) ->
  let r := _tick_reminder env now event (k, trigger, tpl) w in
  r.2 = Ok tt /\
  (dt_ge now trigger = Ok true ->
   has_sent (st_state r.1) (EventResponse.id event) k (updated_key env event) = true) /\
  (forall K', has_sent (st_state w) (EventResponse.id event) K' (updated_key env event) = true ->
              has_sent (st_state r.1) (EventResponse.id event) K' (updated_key env event) = true).
Proof.
  intros Hnow Htrig. cbv zeta. rewrite tick_reminder_unfold.
  destruct (dt_ge_aware now trigger Hnow Htrig) as [due Hdue]. rewrite Hdue.
  destruct (has_sent (st_state w) (EventResponse.id event) k (updated_key env event)) eqn:Hs.
  { rewrite andb_false_r. cbn [fst snd]. by repeat split. }
  destruct due; cbn [andb negb]; [|cbn [fst snd]; by repeat split].
  destruct (attempt_spec env (tpl (EventResponse.summary event)) (EventResponse.id event) k
              (updated_key env event) (failed_to_send event) w)
    as (Hr & _ & [(Hfail & _)|(_ & Hst & _)]).
  { by rewrite sms_always_ok in Hfail. }
  split; [exact Hr|]. rewrite Hst. split.
  - intros _. rewrite has_sent_insert_marked.
    rewrite !bool_decide_eq_true_2 by done. reflexivity.
  - intros K' HK'. rewrite has_sent_insert_marked.
    rewrite !bool_decide_eq_true_2 by done. rewrite HK'. apply orb_true_r.
Qed.

Lemma tick_event_settles now event start w :
  is_Some (tzinfo now) ->
  aware_start env event = Ok start ->
  (_tick_event env now event w).2 = Ok tt /\
  settled env now (st_state (_tick_event env now event w).1) event.
Proof.
  intros Hnow Hstart.
  pose proof (aware_start_aware env event start Hstart) as Haware.
  rewrite (tick_event_unfold env now event start w Hstart).
  destruct (tick_reminder_records now event "2h" (minus start (hours 2)) template_2h w
              Hnow Haware) as (Hr1 & Hdue1 & _).
  destruct (_tick_reminder env now event ("2h", minus start (hours 2), template_2h) w)
    as [w1 r1]. cbn [fst snd] in *. subst r1.
  destruct (tick_reminder_records now event "10m" (minus start (minutes 10)) template_10m w1
              Hnow Haware) as (Hr2 & Hdue2 & Hkeep2).
  destruct (_tick_reminder env now event ("10m", minus start (minutes 10), template_10m) w1)
    as [w2 r2]. cbn [fst snd] in *. subst r2.
  split; [reflexivity|].
  intros start' k trigger tpl Hstart' Hin Hdue.
  rewrite Hstart in Hstart'. injection Hstart' as <-.
  unfold reminders in Hin. rewrite !elem_of_cons in Hin.
  destruct Hin as [[= -> -> ->]|[[= -> -> ->]|Hin]].
  - apply Hkeep2. by apply Hdue1.
  - by apply Hdue2.
  - by apply elem_of_nil in Hin.
Qed.

(** The reminder pass over events with distinct ids leaves every one of
    them settled. *)
Lemma reminder_pass_settles now l w :
  is_Some (tzinfo now) ->
  NoDup (EventResponse.id <$> l) ->
  Forall (fun e => exists start, aware_start env e = Ok start) l ->
  (for_each l (_tick_event env now) w).2 = Ok tt /\
  forall e, e ∈ l -> settled env now (st_state (for_each l (_tick_event env now) w).1) e.
Proof.
  intros Hnow. revert w. induction l as [|e l IH]; intros w Hnd Hl.
  - split; [reflexivity|]. intros e He. by apply elem_of_nil in He.
  - rewrite fmap_cons in Hnd. apply NoDup_cons in Hnd as [Hnotin Hnd].
    apply Forall_cons in Hl as [[start Hstart] Hl].
    rewrite for_each_cons.
    destruct (tick_event_settles now e start w Hnow Hstart) as [Hr Hsettled].
    destruct (_tick_event env now e w) as [w1 r1]. cbn [fst snd] in *. subst r1.
    destruct (IH w1 Hnd Hl) as [Hr' Hrest].
    split; [exact Hr'|].
    intros e0 He0. apply elem_of_cons in He0 as [->|He0]; [|by apply Hrest].
    intros start' k trigger tpl Hstart' Hin Hdue.
    apply (reminder_pass_invariant env
             (fun st => has_sent st (EventResponse.id e) k (updated_key env e) = true) l).
    + intros st e' K He' _ Hst. rewrite has_sent_insert_marked.
      rewrite bool_decide_eq_false_2; [done|].
      intros Heq. apply Hnotin. rewrite Heq. by apply list_elem_of_fmap_2.
    + done.
    + by eapply Hsettled.
Qed.

(** A settled event is passed over. *)
Lemma tick_event_settled_skip now now' event start w :
  is_Some (tzinfo now') ->
  aware_start env event = Ok start ->
  settled env now (st_state w) event ->
  (forall k trigger (tpl : string -> string),
     (k, trigger, tpl) ∈ reminders start ->
     dt_ge now' trigger = Ok true -> dt_ge now trigger = Ok true) ->
  _tick_event env now' event w = (w, Ok tt).
Proof.
  intros Hnow' Hstart Hsettled Hdue.
  pose proof (aware_start_aware env event start Hstart) as Haware.
  assert (forall k trigger (tpl : string -> string),
            (k, trigger, tpl) ∈ reminders start ->
            _tick_reminder env now' event (k, trigger, tpl) w = (w, Ok tt)) as Hskip.
  { intros k trigger tpl Hin.
    assert (is_Some (tzinfo trigger)) as Htrig.
    { unfold reminders in Hin. rewrite !elem_of_cons in Hin.
      destruct Hin as [[= -> -> ->]|[[= -> -> ->]|Hin]]; [done..|].
      by apply elem_of_nil in Hin. }
    apply tick_reminder_skip.
    destruct (dt_ge_aware now' trigger Hnow' Htrig) as [[|] Hd]; [right | by left].
    split; [done|]. split; [done|]. eapply Hsettled; [done..|]. by eapply Hdue. }
  rewrite (tick_event_unfold env now' event start w Hstart).
  rewrite Hskip by (unfold reminders; left).
  rewrite Hskip by (unfold reminders; right; left). reflexivity.
Qed.

End NoRepeat.

Lemma later_tick_noop env events clock clock' now now' w :
  (forall n body, sms_ok env n body = true) ->
  datetime_now env clock = Ok now ->
  datetime_now env clock' = Ok now' ->
  NoDup (EventResponse.id <$> events) ->
  Forall (fun e =>
    (exists start, aware_start env e = Ok start) /\
    dt_lt (EventResponse.end_time e) (minus now (hours 1)) = Ok false /\
    dt_lt (EventResponse.end_time e) (minus now' (hours 1)) = Ok false) events ->
  (forall e start k trigger (tpl : string -> string),
     e ∈ events -> aware_start env e = Ok start ->
     (k, trigger, tpl) ∈ reminders start ->
     dt_ge now' trigger = Ok true -> dt_ge now trigger = Ok true) ->
  let w1 := (_tick env (Ok events) clock w).1 in
  (_tick env (Ok events) clock w).2 = Ok tt /\
  _tick env (Ok events) clock' w1 = (w1, Ok tt).
Proof.
  intros Hsms Hnow Hnow' Hnd Hevents Hdue. cbv zeta.
  pose proof (datetime_now_aware env clock now Hnow) as Haware.
  pose proof (datetime_now_aware env clock' now' Hnow') as Haware'.
  destruct (reminder_pass_settles env Hsms now events w Haware Hnd) as [Hr Hsettled].
  { eapply Forall_impl; [exact Hevents|]. by intros e [He _]. }
  assert (_tick env (Ok events) clock w = ((for_each events (_tick_event env now) w).1, Ok tt))
    as Htick.
  { unfold _tick. rewrite bind_unfold. unfold lift. rewrite Hnow. cbv beta iota.
    rewrite bind_unfold.
    destruct (for_each events (_tick_event env now) w) as [w1 [[]|exc]]; [|discriminate Hr].
    apply (tick_cleanup_none_ended env now).
    eapply Forall_impl; [exact Hevents|]. by intros e (_ & He & _). }
  rewrite Htick. cbn [fst snd]. split; [reflexivity|].
  set (w1 := (for_each events (_tick_event env now) w).1) in *.
  unfold _tick. rewrite bind_unfold. unfold lift. rewrite Hnow'. cbv beta iota.
  rewrite bind_unfold.
  rewrite (for_each_skip events (_tick_event env now') w1).
  - apply (tick_cleanup_none_ended env now').
    eapply Forall_impl; [exact Hevents|]. by intros e (_ & _ & He).
  - intros e He. rewrite Forall_forall in Hevents.
    destruct (Hevents e He) as [[start Hstart] _].
    apply (tick_event_settled_skip env now now' e start w1); [done | done | by apply Hsettled |].
    intros k trigger tpl Hin. by eapply Hdue.
Qed.

(** X7.  No repeat.  After a tick over events with distinct ids, none of
    which line 78 finds ended at either tick, in which every SMS went
    out, a later tick over the same events at which no further reminder
    has become due (so also a tick at the same instant) sends nothing
    and changes nothing, whether or not the writes of the first tick
    reached the file. *)
Theorem later_tick_sends_nothing env events clock clock' now now' w :
  (forall n body, sms_ok env n body = true) ->
  datetime_now env clock = Ok now ->
  datetime_now env clock' = Ok now' ->
  NoDup (EventResponse.id <$> events) ->
  Forall (fun e =>
    (exists start, aware_start env e = Ok start) /\
    dt_lt (EventResponse.end_time e) (minus now (hours 1)) = Ok false /\
    dt_lt (EventResponse.end_time e) (minus now' (hours 1)) = Ok false) events ->
  (forall e start k trigger (tpl : string -> string),
     e ∈ events -> aware_start env e = Ok start ->
     (k, trigger, tpl) ∈ reminders start ->
     dt_ge now' trigger = Ok true -> dt_ge now trigger = Ok true) ->
  let w1 := (_tick env (Ok events) clock w).1 in
  (_tick env (Ok events) clock w).2 = Ok tt /\
  _tick env (Ok events) clock' w1 = (w1, Ok tt).
Proof. apply later_tick_noop. Qed.

Lemma later_tick_sends_nothing_witness :
  let event := event_at "evt-1" "Standup" (utc (hours 10)) (utc (hours 11)) "UTC" in
  let w1 := (_tick env_ok (Ok [event]) (hours 10 - minutes 5) fresh_world).1 in
  _tick env_ok (Ok [event]) (hours 10 - minutes 4) w1 = (w1, Ok tt).
Proof.
  intros event w1.
  apply (later_tick_sends_nothing env_ok [event] (hours 10 - minutes 5) (hours 10 - minutes 4)
           (at_utc (hours 10 - minutes 5)) (at_utc (hours 10 - minutes 4)) fresh_world).
  - reflexivity.
  - reflexivity.
  - reflexivity.
  - apply NoDup_singleton.
  - repeat constructor. by eexists.
  - intros e start k trigger tpl He Hstart Hin _.
    apply list_elem_of_singleton in He. subst e. injection Hstart as <-.
    unfold reminders in Hin. rewrite !elem_of_cons in Hin.
    destruct Hin as [[= -> -> ->]|[[= -> -> ->]|Hin]]; [reflexivity..|].
    by apply elem_of_nil in Hin.
Defined.

(** ** A single event against the store *)

Section SingleEvent.
Variable env : Env.
Implicit Types (w : World) (event : EventResponse.t) (now : datetime).

Lemma tick_single clock now event w :
  datetime_now env clock = Ok now ->
  _tick env (Ok [event]) clock w =
  match _tick_event env now event w with
  | (w1, Ok _) => _tick_cleanup env now [event] w1
  | (w1, Raise e) => (w1, Raise e)
  end.
Proof.
  intros Hnow. unfold _tick. rewrite bind_unfold. unfold lift. rewrite Hnow.
  cbv beta iota. rewrite bind_unfold, for_each_cons.
  by destruct (_tick_event env now event w) as [w1 [[]|e]].
Qed.

(** A due, unrecorded reminder, whatever the send does. *)
Lemma tick_reminder_due now event k trigger (tpl : string -> string) w :
  dt_ge now trigger = Ok true ->
  has_sent (st_state w) (EventResponse.id event) k (updated_key env event) = false ->
  let r := _tick_reminder env now event (k, trigger, tpl) w in
  r.2 = Ok tt /\
  sms_calls r.1 = S (sms_calls w) /\
  sms_bodies (trace r.1) = sms_bodies (trace w) ++ [tpl (EventResponse.summary event)] /\
  (st_state r.1 = st_state w \/
   st_state r.1 = <[EventResponse.id event :=
                      marked (st_state w) (EventResponse.id event) k (updated_key env event)]>
                    (st_state w)) /\
  (sms_ok env (sms_calls w) (tpl (EventResponse.summary event)) = true ->
   st_state r.1 = <[EventResponse.id event :=
                      marked (st_state w) (EventResponse.id event) k (updated_key env event)]>
                    (st_state w)).
Proof.
  intros Hdue Hnot. cbv zeta. rewrite tick_reminder_unfold, Hdue, Hnot. cbn [andb negb].
  destruct (attempt_spec env (tpl (EventResponse.summary event)) (EventResponse.id event) k
              (updated_key env event) (failed_to_send event) w)
    as (Hr & Hcalls & [(Hfail & Hst & _ & _ & Htr)|(Hok & Hst & _ & tail & Htr & Htail)]).
  - split; [exact Hr|]. split; [exact Hcalls|]. split; [|split; [by left|]].
    + rewrite Htr, sms_bodies_app. reflexivity.
    + intros Hok. rewrite Hfail in Hok. discriminate Hok.
  - split; [exact Hr|]. split; [exact Hcalls|]. split; [|split; [by right | done]].
    rewrite Htr, sms_bodies_app, sms_bodies_send.
    by destruct Htail as [->| ->].
Qed.

(** Both reminders due and neither recorded: both are sent, "2h" first. *)
Lemma tick_event_both_due now event start w :
  aware_start env event = Ok start ->
  dt_ge now (minus start (hours 2)) = Ok true ->
  dt_ge now (minus start (minutes 10)) = Ok true ->
  has_sent (st_state w) (EventResponse.id event) "2h" (updated_key env event) = false ->
  has_sent (st_state w) (EventResponse.id event) "10m" (updated_key env event) = false ->
  let r := _tick_event env now event w in
  let E := EventResponse.id event in
  let V := updated_key env event in
  r.2 = Ok tt /\
  sms_calls r.1 = S (S (sms_calls w)) /\
  sms_bodies (trace r.1) =
    sms_bodies (trace w) ++ [template_2h (EventResponse.summary event);
                             template_10m (EventResponse.summary event)] /\
  ((forall n body, sms_ok env n body = true) ->
   st_state r.1 =
   <[E := marked (<[E := marked (st_state w) E "2h" V]> (st_state w)) E "10m" V]>
     (<[E := marked (st_state w) E "2h" V]> (st_state w))).
Proof.
  intros Hstart Hdue1 Hdue2 Hnot1 Hnot2. cbv zeta.
  rewrite (tick_event_unfold env now event start w Hstart).
  pose proof (tick_reminder_due now event "2h" _ template_2h w Hdue1 Hnot1) as H1.
  cbv zeta in H1.
  destruct (_tick_reminder env now event ("2h", minus start (hours 2), template_2h) w)
    as [w1 r1]. cbn [fst snd] in H1.
  destruct H1 as (-> & Hc1 & Hb1 & Hst1 & Hok1).
  assert (has_sent (st_state w1) (EventResponse.id event) "10m" (updated_key env event) = false)
    as Hnot2'.
  { destruct Hst1 as [-> | ->]; [done|].
    rewrite has_sent_insert_marked, !bool_decide_eq_true_2 by done.
    rewrite Hnot2. reflexivity. }
  pose proof (tick_reminder_due now event "10m" _ template_10m w1 Hdue2 Hnot2') as H2.
  cbv zeta in H2.
  destruct (_tick_reminder env now event ("10m", minus start (minutes 10), template_10m) w1)
    as [w2 r2]. cbn [fst snd] in H2.
  destruct H2 as (-> & Hc2 & Hb2 & _ & Hok2).
  cbn [fst snd]. split; [reflexivity|]. split; [by rewrite Hc2, Hc1|]. split.
  - rewrite Hb2, Hb1, <- app_assoc. reflexivity.
  - intros Hsms. rewrite Hok2 by apply Hsms. rewrite Hok1 by apply Hsms. reflexivity.
Qed.

End SingleEvent.

Lemma has_sent_version_mismatch (st : gmap string ReminderRecord) E K V r :
  st !! E = Some r -> last_updated r ≠ V -> has_sent st E K V = false.
Proof. intros Hr Hne. unfold has_sent. rewrite Hr. by rewrite bool_decide_eq_true_2. Qed.

(** ** A failed send is tried again *)

Section Retries.
Variable env : Env.
Implicit Types (w : World) (event : EventResponse.t) (now : datetime).


(** In a list without two events of the same id, the id tells the event. *)
Lemma event_of_id (l : list EventResponse.t) e e' :
  NoDup (EventResponse.id <$> l) -> e ∈ l -> e' ∈ l ->
  EventResponse.id e = EventResponse.id e' -> e = e'.
Proof.
  induction l as [|x l IH]; intros Hnd He He' Hid; [by apply elem_of_nil in He|].
  rewrite fmap_cons in Hnd. apply NoDup_cons in Hnd as [Hx Hnd].
  apply elem_of_cons in He as [->|He]; apply elem_of_cons in He' as [->|He'].
  - done.
  - exfalso. apply Hx. rewrite Hid. by apply list_elem_of_fmap_2.
  - exfalso. apply Hx. rewrite <- Hid. by apply list_elem_of_fmap_2.
  - by apply IH.
Qed.












End Retries.



(** X8.  One fetched event whose start carries a fixed UTC offset, at
    the instant [T], its "2h" reminder not yet recorded, and a tick at
    any instant from [T - 2h] (included) up to but not including
    [T - 10 min]: exactly one SMS is attempted, the "2h" message.  When
    that send succeeds and line 78 does not find the event ended, the
    tick returns normally with "2h" recorded under the event's key. *)
Theorem tick_between_offsets env event T clock now w :
  datetime_now env clock = Ok now ->
  fixed_instant (EventResponse.start_time event) = Some T ->
  T - hours 2 <= clock ->
  clock < T - minutes 10 ->
  has_sent (st_state w) (EventResponse.id event) "2h" (updated_key env event) = false ->
  let res := _tick env (Ok [event]) clock w in
  sms_bodies (trace res.1) =
    sms_bodies (trace w) ++ [template_2h (EventResponse.summary event)] /\
  sms_calls res.1 = S (sms_calls w) /\
  (sms_ok env (sms_calls w) (template_2h (EventResponse.summary event)) = true ->
   dt_lt (EventResponse.end_time event) (minus now (hours 1)) = Ok false ->
   res.2 = Ok tt /\
   has_sent (st_state res.1) (EventResponse.id event) "2h" (updated_key env event) = true /\
   st_state res.1 =
   <[EventResponse.id event :=
       marked (st_state w) (EventResponse.id event) "2h" (updated_key env event)]>
     (st_state w)).
Proof.
  intros Hnow HT Hlo Hhi Hnot. cbv zeta.
  pose proof (datetime_now_instant env clock now Hnow) as Hinst.
  pose proof (aware_start_fixed env event T HT) as Hstart.
  set (start := EventResponse.start_time event) in *.
  assert (dt_ge now (minus start (hours 2)) = Ok true) as Hdue1.
  { rewrite (dt_ge_minus now start clock T) by done. f_equal. apply Z.leb_le. lia. }
  assert (dt_ge now (minus start (minutes 10)) = Ok false) as Hdue2.
  { rewrite (dt_ge_minus now start clock T) by done. f_equal. apply Z.leb_gt. lia. }
  pose proof (tick_reminder_due env now event "2h" _ template_2h w Hdue1 Hnot) as H1.
  cbv zeta in H1.
  assert (_tick_event env now event w =
          _tick_reminder env now event ("2h", minus start (hours 2), template_2h) w) as Hev.
  { rewrite (tick_event_unfold env now event start w Hstart).
    destruct (_tick_reminder env now event ("2h", minus start (hours 2), template_2h) w)
      as [w1 r1]. cbn [fst snd] in H1. destruct H1 as (-> & _).
    rewrite tick_reminder_skip by (by left). reflexivity. }
  rewrite (tick_single env clock now event w Hnow), Hev.
  destruct (_tick_reminder env now event ("2h", minus start (hours 2), template_2h) w)
    as [w1 r1]. cbn [fst snd] in H1.
  destruct H1 as (-> & Hc1 & Hb1 & _ & Hok1).
  destruct (tick_cleanup_sms env now [event] w1) as [Hcs Hcb].
  split; [by rewrite Hcb|]. split; [by rewrite Hcs|].
  intros Hsms Hend.
  rewrite (tick_cleanup_none_ended env now [event] w1) by (by constructor).
  cbn [fst snd]. split; [reflexivity|]. rewrite Hok1 by done. split; [|reflexivity].
  rewrite has_sent_insert_marked. by rewrite !bool_decide_eq_true_2.
Qed.

Lemma tick_between_offsets_witness :
  let event := event_at "evt-1" "Standup" (utc (hours 10)) (utc (hours 11)) "UTC" in
  let res := _tick env_ok (Ok [event]) (hours 8) fresh_world in
  sms_bodies (trace res.1) = ["⏰ Heads up! 'Standup' starts in ~2 hours."] /\
  res.2 = Ok tt /\
  has_sent (st_state res.1) "evt-1" "2h" (updated_key env_ok event) = true.
Proof.
  intros event res.
  destruct (tick_between_offsets env_ok event (hours 10) (hours 8)
              (at_utc (hours 8)) fresh_world) as (Hbodies & _ & Hrec);
    [reflexivity | reflexivity | discriminate | reflexivity | reflexivity |].
  split; [exact Hbodies|].
  destruct Hrec as (Hr & Hsent & _); [reflexivity | reflexivity | by split].
Defined.

(** X9.  A changed version sends everything again.  One fetched event
    whose start carries a fixed UTC offset and whose record carries
    another version than the event's current key, at a tick past both
    offsets: both messages are attempted, "2h" first, whatever kinds the
    old record listed.  When the sends succeed and line 78 does not find
    the event ended, the record is replaced by the one holding exactly
    "10m" and "2h" under the current key. *)
Theorem tick_after_version_change env event T clock now w r :
  datetime_now env clock = Ok now ->
  fixed_instant (EventResponse.start_time event) = Some T ->
  T - minutes 10 <= clock ->
  st_state w !! EventResponse.id event = Some r ->
  last_updated r ≠ updated_key env event ->
  let res := _tick env (Ok [event]) clock w in
  sms_bodies (trace res.1) =
    sms_bodies (trace w) ++ [template_2h (EventResponse.summary event);
                             template_10m (EventResponse.summary event)] /\
  ((forall n body, sms_ok env n body = true) ->
   dt_lt (EventResponse.end_time event) (minus now (hours 1)) = Ok false ->
   res.2 = Ok tt /\
   st_state res.1 !! EventResponse.id event =
   Some {| sent := ["10m"; "2h"]; last_updated := updated_key env event |}).
Proof.
  intros Hnow HT Hlo Hr Hne. cbv zeta.
  pose proof (datetime_now_instant env clock now Hnow) as Hinst.
  pose proof (aware_start_fixed env event T HT) as Hstart.
  set (start := EventResponse.start_time event) in *.
  assert (dt_ge now (minus start (hours 2)) = Ok true) as Hdue1.
  { rewrite (dt_ge_minus now start clock T) by done. f_equal. apply Z.leb_le.
    unfold hours, minutes in *. lia. }
  assert (dt_ge now (minus start (minutes 10)) = Ok true) as Hdue2.
  { rewrite (dt_ge_minus now start clock T) by done. f_equal. apply Z.leb_le. lia. }
  pose proof (tick_event_both_due env now event start w Hstart Hdue1 Hdue2
                (has_sent_version_mismatch _ _ "2h" _ _ Hr Hne)
                (has_sent_version_mismatch _ _ "10m" _ _ Hr Hne)) as Hboth.
  cbv zeta in Hboth.
  rewrite (tick_single env clock now event w Hnow).
  destruct (_tick_event env now event w) as [w1 r1]. cbn [fst snd] in Hboth.
  destruct Hboth as (-> & _ & Hb & Hst).
  destruct (tick_cleanup_sms env now [event] w1) as [_ Hcb].
  split; [by rewrite Hcb|].
  intros Hsms Hend.
  rewrite (tick_cleanup_none_ended env now [event] w1) by (by constructor).
  cbn [fst snd]. split; [reflexivity|].
  rewrite (Hst Hsms), lookup_insert_eq. f_equal.
  rewrite (marked_version_change _ _ "2h" _ r Hr Hne).
  unfold marked. rewrite lookup_insert_eq. cbv zeta. cbn [last_updated sent].
  rewrite (bool_decide_eq_false_2 (updated_key env event ≠ updated_key env event))
    by (intros H; by apply H).
  reflexivity.
Qed.

Lemma tick_after_version_change_witness :
  let event := event_at "evt-1" "Standup" (utc (hours 10)) (utc (hours 11)) "UTC" in
  let m : gmap string ReminderRecord :=
    <["evt-1" := {| sent := ["10m"; "2h"]; last_updated := "2026-01-04T18:30:00+00:00" |}]> ∅ in
  let res := _tick env_ok (Ok [event]) (hours 10) (world_of m) in
  sms_bodies (trace res.1) =
    ["⏰ Heads up! 'Standup' starts in ~2 hours.";
     "🚀 Almost go time! 'Standup' kicks off in 10 minutes."] /\
  st_state res.1 !! "evt-1" =
    Some {| sent := ["10m"; "2h"]; last_updated := "2026-01-05T09:00:00+00:00" |}.
Proof.
  intros event m res.
  destruct (tick_after_version_change env_ok event (hours 10) (hours 10)
              (at_utc (hours 10)) (world_of m)
              {| sent := ["10m"; "2h"]; last_updated := "2026-01-04T18:30:00+00:00" |})
    as (Hbodies & Hrec);
    [reflexivity | reflexivity | discriminate | reflexivity | discriminate |].
  split; [exact Hbodies|].
  destruct Hrec as (_ & Hst); [reflexivity | reflexivity | exact Hst].
Defined.

(** ** Events that have ended, and end times without a zone *)

Section Cleanup.
Variable env : Env.
Implicit Types (w : World) (event : EventResponse.t) (now : datetime).

Lemma tick_cleanup_state_single now event w :
  dt_lt (EventResponse.end_time event) (minus now (hours 1)) = Ok true ->
  st_state (_tick_cleanup env now [event] w).1 = delete (EventResponse.id event) (st_state w).
Proof.
  intros Hlt. rewrite tick_cleanup_cons, Hlt.
  pose proof (clear_event_state env (EventResponse.id event) w) as Hst.
  by destruct (clear_event env (EventResponse.id event) w) as [w1 [[]|e]].
Qed.

End Cleanup.

(** X10.  The clean-up forgets what was sent.  For a fetched event
    whose start carries a fixed UTC offset and is at least 10 minutes
    old, that has no record and that line 78 finds ended, a tick attempts
    both messages and ends with no record for the event again, whatever
    the sends and the writes do: as long as such an event is fetched,
    every tick sends its two reminders. *)
Theorem ended_event_is_notified_again env event T clock now w :
  datetime_now env clock = Ok now ->
  fixed_instant (EventResponse.start_time event) = Some T ->
  T - minutes 10 <= clock ->
  ended_before now event = true ->
  st_state w !! EventResponse.id event = None ->
  let res := _tick env (Ok [event]) clock w in
  sms_bodies (trace res.1) =
    sms_bodies (trace w) ++ [template_2h (EventResponse.summary event);
                             template_10m (EventResponse.summary event)] /\
  st_state res.1 !! EventResponse.id event = None.
Proof.
  intros Hnow HT Hlo Hended Hnone. cbv zeta.
  pose proof (datetime_now_instant env clock now Hnow) as Hinst.
  pose proof (aware_start_fixed env event T HT) as Hstart.
  set (start := EventResponse.start_time event) in *.
  assert (dt_ge now (minus start (hours 2)) = Ok true) as Hdue1.
  { rewrite (dt_ge_minus now start clock T) by done. f_equal. apply Z.leb_le.
    unfold hours, minutes in *. lia. }
  assert (dt_ge now (minus start (minutes 10)) = Ok true) as Hdue2.
  { rewrite (dt_ge_minus now start clock T) by done. f_equal. apply Z.leb_le. lia. }
  pose proof (tick_event_both_due env now event start w Hstart Hdue1 Hdue2
                (has_sent_no_record _ _ "2h" _ Hnone)
                (has_sent_no_record _ _ "10m" _ Hnone)) as Hboth.
  cbv zeta in Hboth.
  rewrite (tick_single env clock now event w Hnow).
  destruct (_tick_event env now event w) as [w1 r1]. cbn [fst snd] in Hboth.
  destruct Hboth as (-> & _ & Hb & _).
  destruct (tick_cleanup_sms env now [event] w1) as [_ Hcb].
  split; [by rewrite Hcb|].
  rewrite tick_cleanup_state_single; [apply lookup_delete_eq|].
  unfold ended_before in Hended.
  by destruct (dt_lt (EventResponse.end_time event) (minus now (hours 1))) as [[|]|exc].
Qed.

Lemma ended_event_is_notified_again_witness :
  let event := event_at "evt-0" "Retro" (utc (hours 7)) (utc (hours 8)) "UTC" in
  let first := _tick env_ok (Ok [event]) (hours 10) fresh_world in
  let second := _tick env_ok (Ok [event]) (hours 10 + minutes 1) first.1 in
  sms_bodies (trace second.1) =
    ["⏰ Heads up! 'Retro' starts in ~2 hours.";
     "🚀 Almost go time! 'Retro' kicks off in 10 minutes.";
     "⏰ Heads up! 'Retro' starts in ~2 hours.";
     "🚀 Almost go time! 'Retro' kicks off in 10 minutes."].
Proof.
  intros event first second.
  destruct (ended_event_is_notified_again env_ok event (hours 7)
              (hours 10) (at_utc (hours 10)) fresh_world) as (Hb1 & Hnone1);
    [reflexivity | reflexivity | discriminate | reflexivity | reflexivity |].
  destruct (ended_event_is_notified_again env_ok event (hours 7)
              (hours 10 + minutes 1) (at_utc (hours 10 + minutes 1)) first.1) as (Hb2 & _);
    [reflexivity | reflexivity | discriminate | reflexivity | exact Hnone1 |].
  subst second. rewrite Hb2. subst first. rewrite Hb1. reflexivity.
Defined.

(** X11.  An end time without [tzinfo] stops the clean-up.  When the
    reminder pass completes and the fetched list is [l1 ++ e :: l2] with
    aware end times in [l1] and a naive one for [e], the comparison on
    line 78 raises [TypeError] out of the tick: [clear_event] has been
    called for the ended events of [l1] and is called for none of [l2]. *)
Theorem naive_end_time_raises env l1 e l2 clock now w :
  datetime_now env clock = Ok now ->
  Forall (fun e0 => exists start, aware_start env e0 = Ok start) (l1 ++ e :: l2) ->
  Forall (fun e0 => is_Some (tzinfo (EventResponse.end_time e0))) l1 ->
  tzinfo (EventResponse.end_time e) = None ->
  (forall n, (persist_calls (for_each (l1 ++ e :: l2) (_tick_event env now) w).1 <= n)%nat ->
             io_at env n = IoOk) ->
  let w_r := (for_each (l1 ++ e :: l2) (_tick_event env now) w).1 in
  let res := _tick env (Ok (l1 ++ e :: l2)) clock w in
  res.2 = Raise TypeError /\
  trace res.1 =
    trace w_r ++ ((fun e0 => ClearEvent (EventResponse.id e0)) <$>
                    filter (fun e0 => ended_before now e0) l1).
Proof.
  intros Hnow Hstarts Hends Hnaive Hio. cbv zeta.
  pose proof (datetime_now_aware env clock now Hnow) as Haware.
  assert ((for_each (l1 ++ e :: l2) (_tick_event env now) w).2 = Ok tt) as Hpass.
  { apply for_each_ok. intros e0 w0 He0.
    rewrite Forall_forall in Hstarts. destruct (Hstarts e0 He0) as [start Hstart].
    by eapply tick_event_ok. }
  unfold _tick. rewrite bind_unfold. unfold lift. rewrite Hnow. cbv beta iota.
  rewrite bind_unfold.
  destruct (for_each (l1 ++ e :: l2) (_tick_event env now) w) as [w_r [[]|exc]];
    [|discriminate Hpass].
  cbn [fst] in Hio |- *.
  rewrite tick_cleanup_app.
  destruct (tick_cleanup_spec env now l1 w_r Haware Hends Hio) as (Hr & Htr & _).
  destruct (_tick_cleanup env now l1 w_r) as [w1 r1]. cbn [fst snd] in *. subst r1.
  rewrite tick_cleanup_cons.
  rewrite (dt_lt_naive_aware _ (minus now (hours 1)) Hnaive Haware).
  cbn [fst snd]. by split.
Qed.

Lemma naive_end_time_raises_witness :
  let first := event_at "evt-0" "Launch" (naive (hours 7))
                 (naive (hours 8)) "UTC" in
  let second := event_at "evt-1" "Retro" (utc (hours 7)) (utc (hours 8)) "UTC" in
  let res := _tick env_ok (Ok [first; second]) (hours 10) fresh_world in
  res.2 = Raise TypeError /\
  st_state res.1 !! "evt-1" =
    Some {| sent := ["10m"; "2h"]; last_updated := "2026-01-05T09:00:00+00:00" |}.
Proof.
  intros first second res.
  destruct (naive_end_time_raises env_ok [] first [second] (hours 10) (at_utc (hours 10))
              fresh_world) as (Hr & _).
  - reflexivity.
  - repeat constructor; by eexists.
  - constructor.
  - reflexivity.
  - intros n _. reflexivity.
  - split; [exact Hr | reflexivity].
Defined.

(** ** What can leave a tick *)

Lemma for_each_raises {A} (P : exn -> Prop) (l : list A) (f : A -> M unit) w exc :
  (forall x w0 e, x ∈ l -> (f x w0).2 = Raise e -> P e) ->
  (for_each l f w).2 = Raise exc -> P exc.
Proof.
  revert w. induction l as [|x l IH]; intros w Hf; [discriminate|].
  rewrite for_each_cons.
  pose proof (Hf x w) as Hx.
  destruct (f x w) as [w1 [[]|e]].
  - apply IH. intros y w0 e0 Hy. apply Hf. by right.
  - intros [= <-]. apply Hx; [by left | reflexivity].
Qed.

(** ** The clean-up horizon around a clock change *)

(** X22.  The horizon of line 76 is one hour back on the wall clock of
    the configured zone, not one hour of elapsed time.  With [on] the
    UTC offset of that zone at [now] and [oh] its offset at the reading
    one hour earlier, an event whose end carries a fixed UTC offset is
    cleared exactly when it ended before [now - 1h + (on - oh)]: one
    hour before now when the two offsets agree, and right at now in the
    hour after the clocks went forward by one hour. *)
Theorem cleanup_horizon_on_wall_clock env clock now event t on oh :
  datetime_now env clock = Ok now ->
  utcoffset now = Some on ->
  utcoffset (minus now (hours 1)) = Some oh ->
  fixed_instant (EventResponse.end_time event) = Some t ->
  ended_before now event = true <-> t < clock - hours 1 + (on - oh).
Proof.
  intros Hnow Hon Hoh Ht.
  pose proof (datetime_now_instant env clock now Hnow) as Hinst.
  apply ended_before_instant; [|done].
  unfold instant in *. rewrite Hon in Hinst. rewrite Hoh. injection Hinst as <-.
  cbn [minus wall]. f_equal. lia.
Qed.

Lemma cleanup_horizon_on_wall_clock_witness :
  let just_over := event_at "evt-3" "Brunch" (utc (hours 492486)) (utc (hours 492487 + minutes 25))
                     "America/New_York" in
  let clock := hours 492487 + minutes 30 in
  ended_before (now_in (tz_zone "America/New_York" new_york) clock) just_over = true /\
  trace (_tick (env_in "America/New_York") (Ok [just_over]) clock
           (world_of (<["evt-3" := {| sent := ["10m"; "2h"];
                                      last_updated := "2026-03-08T03:05:00" |}]> ∅))).1
    = [ClearEvent "evt-3"].
Proof.
  intros just_over clock. split; [|reflexivity].
  apply (cleanup_horizon_on_wall_clock (env_in "America/New_York") clock _ just_over
           (hours 492487 + minutes 25) (- hours 4) (- hours 5));
    reflexivity.
Defined.

(** ** Starting and stopping the engine *)

Lemma rounds_start n :
  rounds n false ++ [ReminderEngine.add_job "reminder-poll" 1 1; ReminderEngine.scheduler_start]
  = rounds n true.
Proof. unfold rounds. by rewrite app_nil_r. Qed.

Lemma rounds_stop n :
  rounds n true ++ [ReminderEngine.scheduler_shutdown] = rounds (S n) false.
Proof.
  unfold rounds. rewrite app_nil_r, <- app_assoc. cbn [app].
  induction n as [|n IH]; [reflexivity|].
  cbn [replicate mjoin list_join]. cbn [replicate mjoin list_join] in IH.
  rewrite <- !app_assoc. cbn [app]. do 3 f_equal. exact IH.
Qed.

Lemma alternating_rounds n running :
  ReminderEngine.alternating false (rounds n running) = true.
Proof.
  unfold rounds. induction n as [|n IH]; [by destruct running|].
  cbn [replicate mjoin list_join]. rewrite <- app_assoc. cbn [app].
  cbn [ReminderEngine.alternating negb andb]. exact IH.
Qed.

Lemma engine_rounds (cmds : list ReminderEngine.command) :
  exists n,
    ReminderEngine.scheduler (foldl ReminderEngine.run ReminderEngine.init cmds) =
    rounds n (ReminderEngine._running (foldl ReminderEngine.run ReminderEngine.init cmds)).
Proof.
  induction cmds as [|c cmds IH] using rev_ind; [by exists 0%nat|].
  rewrite foldl_app. cbn [foldl].
  destruct IH as [n Hn].
  set (self := foldl ReminderEngine.run ReminderEngine.init cmds) in *.
  destruct c; unfold ReminderEngine.run, ReminderEngine.start, ReminderEngine.stop;
    destruct (ReminderEngine._running self) eqn:Hrun; cbn.
  - exists n. by rewrite Hrun.
  - exists n. by rewrite Hn, rounds_start.
  - exists (S n). by rewrite Hn, rounds_stop.
  - exists n. by rewrite Hrun.
Qed.

(** X13.  However [start()] and [stop()] are called on an engine, the
    calls that reach the scheduler are complete rounds of "add the job,
    start, shut down", followed by one more "add the job, start" exactly
    when the engine is running: the scheduler is never started while it
    runs, never shut down while it is stopped, and the job is added once
    per start.  A repeated [start()] or [stop()] changes nothing. *)
Theorem scheduler_calls_alternate (cmds : list ReminderEngine.command) :
  let self := foldl ReminderEngine.run ReminderEngine.init cmds in
  (exists n, ReminderEngine.scheduler self = rounds n (ReminderEngine._running self)) /\
  ReminderEngine.alternating false (ReminderEngine.scheduler self) = true /\
  ReminderEngine.start (ReminderEngine.start self) = ReminderEngine.start self /\
  ReminderEngine.stop (ReminderEngine.stop self) = ReminderEngine.stop self.
Proof.
  cbv zeta. destruct (engine_rounds cmds) as [n Hn].
  split; [by exists n|]. split; [rewrite Hn; apply alternating_rounds|].
  unfold ReminderEngine.start, ReminderEngine.stop.
  split; by destruct (ReminderEngine._running _) eqn:Hrun; cbn; rewrite ?Hrun.
Qed.

(** * The keyword parser and the intent handler *)

Lemma contains_tail keyword a s :
  contains keyword s = true -> contains keyword (String a s) = true.
Proof. intros H. cbn [contains]. rewrite H. apply orb_true_r. Qed.

Lemma contains_prefix keyword s : String.prefix keyword s = true -> contains keyword s = true.
Proof. intros H. destruct s; cbn [contains]; by rewrite H. Qed.

(** A text that contains "reschedule" contains "schedule". *)
Lemma contains_reschedule s :
  contains "reschedule" s = true -> contains "schedule" s = true.
Proof.
  induction s as [|a s IH]; [discriminate|].
  cbn [contains]. intros H. apply orb_true_iff in H as [Hpre|Htail].
  - cbn [String.prefix] in Hpre.
    destruct (Ascii.ascii_dec _ a); [|discriminate].
    destruct s as [|b s2]; [discriminate|].
    cbn [String.prefix] in Hpre.
    destruct (Ascii.ascii_dec _ b); [|discriminate].
    apply orb_true_iff. right. apply contains_tail. by apply contains_prefix.
  - apply orb_true_iff. right. by apply IH.
Qed.

(** X14.  What the keyword parser really tests.  Because a text with
    the keyword "reschedule" also contains "schedule", which the first
    test catches, the intent is the one obtained without the keyword
    "reschedule" and without the test on "what" and "schedule": a
    message is classified [reschedule_event] only through "move",
    "delay" or "shift", and [list_events] only through "list"; every
    text containing "schedule" or "reschedule" is a [create_event]. *)
Theorem fallback_intent_keywords (lower : string -> string) (text : string) :
  let lowered := lower text in
  let found := LLMParser.intent (LLMParser._fallback_intent lower text) in
  found =
    (if LLMParser.any_keyword ["add"; "create"; "schedule"] lowered
     then LLMParser.create_event
     else if LLMParser.any_keyword ["move"; "delay"; "shift"] lowered
     then LLMParser.reschedule_event
     else if LLMParser.any_keyword ["cancel"; "delete"; "remove"] lowered
     then LLMParser.cancel_event
     else if contains "list" lowered then LLMParser.list_events
     else LLMParser.unknown) /\
  (contains "schedule" lowered = true -> found = LLMParser.create_event) /\
  (contains "reschedule" lowered = true -> found = LLMParser.create_event).
Proof.
  cbv zeta. unfold LLMParser._fallback_intent. cbn [LLMParser.intent].
  unfold LLMParser.any_keyword. cbn [existsb].
  assert (contains "schedule" (lower text) = false ->
          contains "reschedule" (lower text) = false) as Hre.
  { intros Hs. destruct (contains "reschedule" (lower text)) eqn:Hr; [|done].
    apply contains_reschedule in Hr. congruence. }
  destruct (contains "schedule" (lower text)) eqn:Hs.
  - rewrite !orb_true_r. cbn. by repeat split.
  - rewrite (Hre eq_refl). rewrite !orb_false_r, andb_false_r. cbn [orb].
    split; [|split; discriminate].
    destruct (contains "add" (lower text) || contains "create" (lower text)); [done|].
    by destruct (contains "move" (lower text)).
Qed.

Lemma fallback_intent_keywords_witness :
  LLMParser.intent (LLMParser._fallback_intent (fun s => s) "please reschedule my 3pm call")
  = LLMParser.create_event.
Proof.
  destruct (fallback_intent_keywords (fun s => s) "please reschedule my 3pm call")
    as (_ & _ & Hre).
  apply Hre. reflexivity.
Defined.

Section HandlerFacts.
Variable fromisoformat : string -> option datetime.
Variable validate_create : gmap string pyval -> option Main.EventCreateRequest.
Variable validate_update : gmap string pyval -> option Main.EventUpdateRequest.
Variable calendar_list : Main.exception + list EventResponse.t.
Variable calendar_create : Main.EventCreateRequest -> Main.exception + EventResponse.t.
Variable calendar_update : pyval -> Main.EventUpdateRequest -> Main.exception + EventResponse.t.
Variable calendar_delete : pyval -> Main.exception + unit.
Variable format_local_time : datetime -> string.

Local Abbreviation handle :=
  (Main.handle_intent fromisoformat validate_create validate_update calendar_list
     calendar_create calendar_update calendar_delete format_local_time).

Lemma caught_never_reraises e :
  Main.caught e ≠ inl Main.CalendarError /\ Main.caught e ≠ inl Main.ValueError.
Proof. by destruct e. Qed.

Lemma build_event_create_missing (payload : gmap string pyval) field :
  field ∈ ["summary"; "start_time"; "end_time"] ->
  payload !! field = None ->
  Main.build_event_create fromisoformat validate_create payload = inl Main.ValueError.
Proof.
  intros Hin Hnone. unfold Main.build_event_create.
  destruct (forallb _ _) eqn:Hall; [|reflexivity].
  rewrite forallb_forall in Hall.
  specialize (Hall field ltac:(by apply list_elem_of_In)).
  apply bool_decide_eq_true in Hall. rewrite Hnone in Hall. by destruct Hall.
Qed.

Lemma build_event_update_nothing (payload : gmap string pyval) :
  delete "event_id" payload = ∅ ->
  Main.build_event_update fromisoformat validate_update payload = inl Main.ValueError.
Proof.
  intros Hempty. unfold Main.build_event_update.
  destruct (payload !! "event_id"); [|reflexivity].
  cbv zeta. rewrite Hempty. unfold Main.parse_time_field. rewrite !lookup_empty.
  by rewrite bool_decide_eq_true_2.
Qed.

(** X15.  Without an LLM client the SMS interface can only list.  The
    intent [parse_intent] finds by keywords carries the payload
    [{"text": text}] and nothing else, so [handle_intent] asks for more
    information on every create, reschedule and cancel message and makes
    no calendar call for them; the one call it can make is
    [list_events_today], for a [list_events] intent. *)
Theorem keyword_parser_only_lists (lower strip : string -> string) (text : string) :
  let parsed := LLMParser.parse_intent lower strip None text in
  let reply := handle parsed in
  match LLMParser.intent parsed with
  | LLMParser.list_events => reply.1 = [Main.list_events_today]
  | LLMParser.unknown =>
      reply = ([], inr "Sorry, I didn't understand that — mind rephrasing?")
  | _ => reply = ([], inr "🤔 I need a bit more info to do that. Can you rephrase?")
  end.
Proof.
  cbv zeta. unfold LLMParser.parse_intent.
  destruct (bool_decide (strip text = "")); [reflexivity|].
  set (r := LLMParser._fallback_intent lower (strip text)).
  assert (LLMParser.payload r = {[ "text" := PyStr (strip text) ]}) as Hpay by reflexivity.
  unfold Main.handle_intent.
  destruct (LLMParser.intent r) eqn:Hi.
  - rewrite (build_event_create_missing _ "summary"); [reflexivity | by left |].
    by rewrite Hpay, lookup_singleton_ne.
  - unfold Main.build_event_update.
    by rewrite Hpay, lookup_singleton_ne.
  - by rewrite Hpay, lookup_singleton_ne.
  - reflexivity.
  - reflexivity.
Qed.

(** X16.  [handle_intent] makes at most one calendar call and never
    lets a [CalendarError] or a [ValueError] out, whatever the intent,
    the payload and the answers of the calendar client. *)
Theorem handle_intent_catches (intent : LLMParser.IntentResult) :
  let reply := handle intent in
  (length reply.1 <= 1)%nat /\
  reply.2 ≠ inl Main.CalendarError /\
  reply.2 ≠ inl Main.ValueError.
Proof.
  cbv zeta. unfold Main.handle_intent.
  destruct (LLMParser.intent intent).
  - destruct (Main.build_event_create _ _ _) as [e|request]; cbn [fst snd length].
    + split; [lia | apply caught_never_reraises].
    + split; [lia|]. destruct (calendar_create request) as [e|event];
        [apply caught_never_reraises | done].
  - destruct (Main.build_event_update _ _ _) as [e|[event_id request]]; cbn [fst snd length].
    + split; [lia | apply caught_never_reraises].
    + split; [lia|]. destruct (calendar_update event_id request) as [e|event];
        [apply caught_never_reraises | done].
  - destruct (LLMParser.payload intent !! "event_id") as [event_id|]; cbn [fst snd length].
    + destruct (Main.truthy event_id); cbn [fst snd length].
      * split; [lia|]. destruct (calendar_delete event_id) as [e|[]];
          [apply caught_never_reraises | done].
      * split; [lia | done].
    + split; [lia | done].
  - cbn [fst snd length]. split; [lia|].
    destruct calendar_list as [e|[|event events]]; [apply caught_never_reraises | done..].
  - cbn [fst snd length]. split; [lia | done].
Qed.

(** X17.  Incomplete payloads reach no calendar write.  A cancel whose
    payload has no [event_id] or a false one (an empty string), a
    reschedule whose payload holds nothing besides the [event_id], and a
    create whose payload lacks one of [summary], [start_time] and
    [end_time] all make no calendar call and get the reply asking for
    more information. *)
Theorem incomplete_payload_makes_no_call (intent : LLMParser.IntentResult) :
  match LLMParser.intent intent with
  | LLMParser.cancel_event =>
      LLMParser.payload intent !! "event_id" = None \/
      exists v, LLMParser.payload intent !! "event_id" = Some v /\ Main.truthy v = false
  | LLMParser.reschedule_event =>
      delete "event_id" (LLMParser.payload intent) = ∅
  | LLMParser.create_event =>
      exists field, field ∈ ["summary"; "start_time"; "end_time"] /\
                    LLMParser.payload intent !! field = None
  | _ => False
  end ->
  handle intent = ([], inr "🤔 I need a bit more info to do that. Can you rephrase?").
Proof.
  unfold Main.handle_intent. destruct (LLMParser.intent intent).
  - intros (field & Hin & Hnone). by rewrite (build_event_create_missing _ field).
  - intros Hempty. by rewrite build_event_update_nothing.
  - intros [-> | (v & -> & ->)]; reflexivity.
  - done.
  - done.
Qed.

End HandlerFacts.

Lemma keyword_parser_only_lists_witness :
  Main.handle_intent (fun _ => None) (fun _ => None) (fun _ => None) (inr [])
    (fun _ => inl Main.OtherException) (fun _ _ => inl Main.OtherException)
    (fun _ => inl Main.OtherException) (fun _ => "9:00 AM")
    (LLMParser.parse_intent (fun s => s) (fun s => s) None "cancel my dentist appointment")
  = ([], inr "🤔 I need a bit more info to do that. Can you rephrase?").
Proof.
  apply (keyword_parser_only_lists (fun _ => None) (fun _ => None) (fun _ => None) (inr [])
           (fun _ => inl Main.OtherException) (fun _ _ => inl Main.OtherException)
           (fun _ => inl Main.OtherException) (fun _ => "9:00 AM")
           (fun s => s) (fun s => s) "cancel my dentist appointment").
Defined.

Lemma incomplete_payload_makes_no_call_witness :
  Main.handle_intent (fun _ => None) (fun _ => None) (fun _ => None) (inr [])
    (fun _ => inl Main.OtherException) (fun _ _ => inl Main.OtherException)
    (fun _ => inr tt) (fun _ => "9:00 AM")
    {| LLMParser.intent := LLMParser.cancel_event;
       LLMParser.payload := {[ "event_id" := PyStr "" ]};
       LLMParser.original_text := "cancel it"; LLMParser.confidence := 50 |}
  = ([], inr "🤔 I need a bit more info to do that. Can you rephrase?").
Proof.
  apply incomplete_payload_makes_no_call. cbn [LLMParser.intent LLMParser.payload].
  right. exists (PyStr ""). split; reflexivity.
Defined.

(** * Events without a start time, and the time shown in replies *)

Lemma parse_rfc3339_missing fromisoformat clock :
  GoogleCalendarClient._parse_rfc3339 fromisoformat clock None = Some (utc clock).
Proof. reflexivity. Qed.

(** X18.  An event of the Calendar API whose ["start"] has no
    ["dateTime"] (an all-day event) is normalised to an aware start equal
    to the clock reading at the fetch.  Fed to a tick that runs at or
    after that reading and finds no record for it, the event gets both
    messages at once, "starts in ~2 hours" and "kicks off in 10 minutes". *)
Theorem all_day_event_gets_both_reminders env fromisoformat api_ev event
    clock_start clock_end clock now w :
  GoogleCalendarClient._normalize_event fromisoformat (settings_timezone env)
    clock_start clock_end api_ev = Some event ->
  (forall t, GoogleCalendarClient.api_start api_ev = Some t ->
             GoogleCalendarClient.dateTime t = None) ->
  datetime_now env clock = Ok now ->
  clock_start <= clock ->
  st_state w !! EventResponse.id event = None ->
  EventResponse.start_time event = utc clock_start /\
  sms_bodies (trace (_tick env (Ok [event]) clock w).1) =
    sms_bodies (trace w) ++ [template_2h (EventResponse.summary event);
                             template_10m (EventResponse.summary event)].
Proof.
  intros Hnorm Hall Hnow Hle Hnone.
  assert (EventResponse.start_time event = utc clock_start) as Hstart.
  { unfold GoogleCalendarClient._normalize_event in Hnorm. cbv zeta in Hnorm.
    assert (GoogleCalendarClient.dateTime
              (default {| GoogleCalendarClient.dateTime := None;
                          GoogleCalendarClient.timeZone := None |}
                 (GoogleCalendarClient.api_start api_ev)) = None) as Hdt.
    { destruct (GoogleCalendarClient.api_start api_ev) as [t|] eqn:Ht; [|reflexivity].
      by apply Hall. }
    rewrite Hdt, parse_rfc3339_missing in Hnorm.
    destruct (GoogleCalendarClient._parse_rfc3339 _ _ _) as [end_dt|]; [|discriminate].
    destruct (match GoogleCalendarClient.nonempty _ with Some _ => _ | None => _ end)
      as [updated_at|]; [|discriminate].
    destruct (GoogleCalendarClient.api_id api_ev) as [event_id|]; [|discriminate].
    by injection Hnorm as <-. }
  split; [exact Hstart|].
  pose proof (datetime_now_instant env clock now Hnow) as Hinst.
  assert (aware_start env event = Ok (utc clock_start)) as Haware.
  { unfold aware_start. by rewrite Hstart. }
  assert (instant (utc clock_start) = Some clock_start) as HT.
  { unfold instant, utc. simpl. f_equal. lia. }
  assert (dt_ge now (minus (utc clock_start) (hours 2)) = Ok true) as Hdue1.
  { rewrite (dt_ge_minus now _ clock clock_start) by done. f_equal. apply Z.leb_le.
    unfold hours. lia. }
  assert (dt_ge now (minus (utc clock_start) (minutes 10)) = Ok true) as Hdue2.
  { rewrite (dt_ge_minus now _ clock clock_start) by done. f_equal. apply Z.leb_le.
    unfold minutes. lia. }
  pose proof (tick_event_both_due env now event _ w Haware Hdue1 Hdue2
                (has_sent_no_record _ _ "2h" _ Hnone)
                (has_sent_no_record _ _ "10m" _ Hnone)) as Hboth.
  cbv zeta in Hboth.
  rewrite (tick_single env clock now event w Hnow).
  destruct (_tick_event env now event w) as [w1 r1]. cbn [fst snd] in Hboth.
  destruct Hboth as (-> & _ & Hb & _).
  destruct (tick_cleanup_sms env now [event] w1) as [_ Hcb].
  by rewrite Hcb.
Qed.

Lemma all_day_event_gets_both_reminders_witness :
  let api_ev :=
    {| GoogleCalendarClient.api_id := Some "evt-7";
       GoogleCalendarClient.api_summary := Some "Offsite";
       GoogleCalendarClient.api_start :=
         Some {| GoogleCalendarClient.dateTime := None; GoogleCalendarClient.timeZone := None |};
       GoogleCalendarClient.api_end :=
         Some {| GoogleCalendarClient.dateTime := None; GoogleCalendarClient.timeZone := None |};
       GoogleCalendarClient.api_updated := None;
       GoogleCalendarClient.api_created := None |} in
  let event := event_at "evt-7" "Offsite" (utc (hours 9)) (utc (hours 9)) "UTC" in
  GoogleCalendarClient._normalize_event (fun _ => None) "UTC" (hours 9) (hours 9) api_ev
    = Some event /\
  sms_bodies (trace (_tick env_ok (Ok [event]) (hours 9) fresh_world).1) =
    ["⏰ Heads up! 'Offsite' starts in ~2 hours.";
     "🚀 Almost go time! 'Offsite' kicks off in 10 minutes."].
Proof.
  intros api_ev event. split; [reflexivity|].
  destruct (all_day_event_gets_both_reminders env_ok (fun _ => None) api_ev event
              (hours 9) (hours 9) (hours 9) (at_utc (hours 9)) fresh_world) as [_ Hb].
  - reflexivity.
  - intros t [= <-]. reflexivity.
  - reflexivity.
  - reflexivity.
  - reflexivity.
  - exact Hb.
Defined.

Lemma lstrip_zeros_keeps c rest :
  Ascii.eqb c (Ascii.ascii_of_nat 48) = false ->
  lstrip_zeros (String c rest) = String c rest.
Proof. intros H. cbn [lstrip_zeros]. by rewrite H. Qed.

(** X19.  The time [format_local_time] prints is the 12-hour clock
    reading in the local zone without a leading zero, the minutes on two
    digits, and AM or PM; the hour printed is never 0 (midnight and noon
    print 12), and the [%H:%M] alternative after [or] is never used. *)
Theorem format_local_time_shape (local_offset : Z) (dt : datetime) :
  let local := astimezone local_offset dt in
  let h := hour_of local in
  let h12 := if h mod 12 =? 0 then 12 else h mod 12 in
  1 <= h12 <= 12 /\
  format_local_time local_offset dt =
    (if h12 <? 10 then digit h12 else two_digits h12) +:+ ":" +:+
    two_digits (minute_of local) +:+ " " +:+ (if h <? 12 then "AM" else "PM").
Proof.
  cbv zeta. unfold format_local_time. cbv zeta. unfold strftime_I_M_p. cbv zeta.
  set (local := astimezone local_offset dt).
  set (h := hour_of local).
  set (tail := ":" +:+ two_digits (minute_of local) +:+ " " +:+ (if h <? 12 then "AM" else "PM")).
  remember (if h mod 12 =? 0 then 12 else h mod 12) as h12 eqn:Hh12.
  assert (1 <= h12 <= 12) as Hrange.
  { subst h12. pose proof (Z.mod_pos_bound h 12 ltac:(lia)) as Hb.
    destruct (Z.eqb_spec (h mod 12) 0); lia. }
  split; [exact Hrange|].
  assert (h12 = 1 \/ h12 = 2 \/ h12 = 3 \/ h12 = 4 \/ h12 = 5 \/ h12 = 6 \/
          h12 = 7 \/ h12 = 8 \/ h12 = 9 \/ h12 = 10 \/ h12 = 11 \/ h12 = 12) as Hcases by lia.
  clear Hh12 Hrange.
  repeat (destruct Hcases as [-> | Hcases]); try subst h12;
    cbn; by rewrite bool_decide_eq_false_2.
Qed.

(** * Across a restart *)

Section Durable.
Variable env : Env.
Hypothesis io_always_ok : forall n, io_at env n = IoOk.
Implicit Types (w : World).

Lemma mark_sent_synced E K V w : synced (mark_sent env E K V w).1.
Proof.
  unfold synced. rewrite mark_sent_file, io_always_ok. reflexivity.
Qed.

Lemma clear_event_synced E w : synced w -> synced (clear_event env E w).1.
Proof.
  intros Hw. rewrite clear_event_unfold. cbv zeta.
  destruct (st_state w !! E); [|exact Hw].
  unfold _persist, synced. cbn [persist_calls st_state st_file].
  by rewrite io_always_ok.
Qed.

Lemma attempt_synced body E K V msg w :
  synced w ->
  synced (try_except (send_message env body ;; mark_sent env E K V)
            (fun exc => emit (LogException msg exc)) w).1.
Proof.
  intros Hw.
  unfold try_except, bind, send_message, mark_sent, bind, emit, set_state, _persist.
  cbn [st_state st_file persist_calls sms_calls trace].
  destruct (sms_ok env (sms_calls w) body); cbn.
  - rewrite io_always_ok. reflexivity.
  - exact Hw.
Qed.

Lemma tick_synced fetch clock w : synced w -> synced (_tick env fetch clock w).1.
Proof.
  destruct fetch as [events|exc]; [|done].
  unfold _tick. rewrite bind_unfold. unfold lift.
  destruct (datetime_now env clock) as [now|exc]; [|done].
  cbv beta iota. rewrite bind_unfold. intros Hw.
  assert (synced (for_each events (_tick_event env now) w).1) as Hpass.
  { revert Hw. apply (for_each_preserves (fun w0 w1 => synced w0 -> synced w1)); [done | auto |].
    intros event w0 _. unfold _tick_event. rewrite bind_unfold. unfold lift.
    destruct (aware_start env event) as [start|exc]; [|done].
    apply (for_each_preserves (fun w0 w1 => synced w0 -> synced w1)); [done | auto |].
    intros [[k trigger] tpl] w1 _ Hw1. rewrite tick_reminder_unfold.
    destruct (dt_ge now trigger) as [due|exc]; [|done].
    destruct (due && negb _); [|done]. by apply attempt_synced. }
  destruct (for_each events (_tick_event env now) w) as [w1 [[]|exc]]; [|done].
  revert Hpass. unfold _tick_cleanup.
  apply (for_each_preserves (fun w0 w1 => synced w0 -> synced w1)); [done | auto |].
  intros event w0 _ Hw0. rewrite bind_unfold. unfold lift.
  destruct (dt_lt _ _) as [[|]|exc]; [|done..]. by apply clear_event_synced.
Qed.

Lemma restarted_synced w : synced w -> restarted w = (w, Ok tt).
Proof.
  unfold synced, restarted. rewrite init_unfold. destruct w as [st f p c tr]. cbn.
  destruct f; [intros ->; reflexivity | intros ->; reflexivity | done].
Qed.

End Durable.

(** X20.  What was sent stays sent across a restart.  When every write
    succeeds and the store starts in step with its file, a store object
    built anew on the file after any tick is the very store the tick
    left, with the same mapping.  Hence, after a tick over events with
    distinct ids, none ended, in which every SMS went out, a restarted
    process sends nothing at a later tick at which no further reminder
    has become due. *)
Theorem no_repeat_after_restart env events clock clock' now now' w :
  (forall n, io_at env n = IoOk) ->
  synced w ->
  (forall n body, sms_ok env n body = true) ->
  datetime_now env clock = Ok now ->
  datetime_now env clock' = Ok now' ->
  NoDup (EventResponse.id <$> events) ->
  Forall (fun e =>
    (exists start, aware_start env e = Ok start) /\
    dt_lt (EventResponse.end_time e) (minus now (hours 1)) = Ok false /\
    dt_lt (EventResponse.end_time e) (minus now' (hours 1)) = Ok false) events ->
  (forall e start k trigger (tpl : string -> string),
     e ∈ events -> aware_start env e = Ok start ->
     (k, trigger, tpl) ∈ reminders start ->
     dt_ge now' trigger = Ok true -> dt_ge now trigger = Ok true) ->
  let w1 := (_tick env (Ok events) clock w).1 in
  restarted w1 = (w1, Ok tt) /\
  _tick env (Ok events) clock' (restarted w1).1 = ((restarted w1).1, Ok tt).
Proof.
  intros Hio Hsync Hsms Hnow Hnow' Hnd Hevents Hdue. cbv zeta.
  assert (restarted (_tick env (Ok events) clock w).1 = ((_tick env (Ok events) clock w).1, Ok tt))
    as Hre.
  { apply restarted_synced. by apply tick_synced. }
  split; [exact Hre|]. rewrite Hre. cbn [fst].
  by apply (later_tick_noop env events clock clock' now now' w).
Qed.

Lemma no_repeat_after_restart_witness :
  let event := event_at "evt-1" "Standup" (utc (hours 10)) (utc (hours 11)) "UTC" in
  let w1 := (_tick env_ok (Ok [event]) (hours 10 - minutes 5) fresh_world).1 in
  restarted w1 = (w1, Ok tt) /\
  _tick env_ok (Ok [event]) (hours 10 - minutes 4) (restarted w1).1 = ((restarted w1).1, Ok tt).
Proof.
  intros event w1.
  apply (no_repeat_after_restart env_ok [event] (hours 10 - minutes 5) (hours 10 - minutes 4)
           (at_utc (hours 10 - minutes 5)) (at_utc (hours 10 - minutes 4)) fresh_world).
  - reflexivity.
  - reflexivity.
  - reflexivity.
  - reflexivity.
  - reflexivity.
  - apply NoDup_singleton.
  - repeat constructor. by eexists.
  - intros e start k trigger tpl He Hstart Hin _.
    apply list_elem_of_singleton in He. subst e. injection Hstart as <-.
    unfold reminders in Hin. rewrite !elem_of_cons in Hin.
    destruct Hin as [[= -> -> ->]|[[= -> -> ->]|Hin]]; [reflexivity..|].
    by apply elem_of_nil in Hin.
Defined.

(** * The OAuth state *)

(** X21.  A state is accepted at most once.  Whatever a callback with
    [state] did (accepted, rejected, or failed in the token exchange), a
    second callback with the same state is answered 400 and leaves the
    cache alone; a callback with a state that was never stored is
    answered 400; and a state stored by [start_oauth] with a non-empty
    value is accepted by the next callback when the token exchange
    succeeds. *)
Theorem oauth_state_single_use (cache : gmap string string) (state : string) :
  (forall fetch_ok fetch_ok',
     let first := OAuth.oauth_callback fetch_ok state cache in
     OAuth.oauth_callback fetch_ok' state first.1 = (first.1, OAuth.http_400)) /\
  (cache !! state = None ->
   forall fetch_ok, OAuth.oauth_callback fetch_ok state cache = (cache, OAuth.http_400)) /\
  (forall returned_state,
     returned_state ≠ "" ->
     let started := OAuth.start_oauth state returned_state cache in
     (OAuth.oauth_callback true state started.1).2 = OAuth.connected /\
     (OAuth.oauth_callback true state started.1).1 !! state = None).
Proof.
  split; [|split].
  - intros fetch_ok fetch_ok'. cbv zeta.
    destruct (cache !! state) as [cached|] eqn:Hc.
    + assert ((OAuth.oauth_callback fetch_ok state cache).1 = delete state cache) as Hfirst.
      { unfold OAuth.oauth_callback. rewrite Hc. cbv zeta.
        destruct (bool_decide _); [done|]. by destruct fetch_ok. }
      rewrite Hfirst. unfold OAuth.oauth_callback. by rewrite lookup_delete_eq.
    + assert (OAuth.oauth_callback fetch_ok state cache = (cache, OAuth.http_400)) as Hfirst.
      { unfold OAuth.oauth_callback. by rewrite Hc. }
      rewrite Hfirst. cbn [fst]. unfold OAuth.oauth_callback. by rewrite Hc.
  - intros Hnone fetch_ok. unfold OAuth.oauth_callback. by rewrite Hnone.
  - intros returned_state Hne. cbv zeta.
    unfold OAuth.start_oauth, OAuth.oauth_callback. cbn [fst].
    rewrite lookup_insert_eq. cbv zeta. rewrite bool_decide_eq_false_2 by done.
    cbn [fst snd]. split; [reflexivity | apply lookup_delete_eq].
Qed.

Lemma oauth_state_single_use_witness :
  let started := OAuth.start_oauth "s3cr3t" "s3cr3t" ∅ in
  (OAuth.oauth_callback true "s3cr3t" started.1).2 = OAuth.connected /\
  OAuth.oauth_callback true "forged" ∅ = (∅, OAuth.http_400).
Proof.
  intros started.
  destruct (oauth_state_single_use ∅ "s3cr3t") as (_ & _ & Hok).
  destruct (oauth_state_single_use ∅ "forged") as (_ & Hunknown & _).
  split.
  - apply Hok. discriminate.
  - apply Hunknown. reflexivity.
Defined.
